(** * api_exam: the CSV-to-JSON file converter of [main.go]

    A shallow embedding of [processFile] (main.go, lines 137-299) and of the
    loop of [main] that drives it, together with the parts of the Go
    standard library whose behaviour the program depends on:
    [strconv.Atoi], [filepath.Ext], [strings.ToLower], the field-count
    bookkeeping of [encoding/csv.Reader] and [json.MarshalIndent] on
    [[]Record].

    Conventions.
    - A Go [string] is a sequence of bytes; it is modelled by [string], whose
      characters are bytes, so [String.length] is Go's [len].
    - Go's [int] is modelled by [Z].  The only integers computed are the
      line counter (one increment per record read) and the value parsed by
      [Atoi] from an 8-byte string, so no wrap-around of the 64-bit [int] is
      reachable and none is written out.
    - A slice is a [list]; [records] starts as the nil slice and only grows
      by [append], so the empty list stands for the nil slice.
    - An index expression [record[id]] panics in Go when [id] is out of
      range; the model makes that outcome explicit ([Panic]). *)

From stdpp Require Import gmap strings list pretty.
From Stdlib Require Import ZArith Ascii.

Local Open Scope string_scope.
Local Open Scope list_scope.
Local Open Scope nat_scope.

(** ** Characters that cannot be written inside a string literal *)

Definition dq : string := String (ascii_of_nat 34) "".
Definition nl : string := String (ascii_of_nat 10) "".

(** ** Constants (main.go, lines 23-34) *)

Definition ID : string := "INTERNAL_ID".
Definition FName : string := "FIRST_NAME".
Definition MName : string := "MIDDLE_NAME".
Definition LName : string := "LAST_NAME".
Definition Phone : string := "PHONE_NUM".

(** ** Output schema (main.go, lines 36-54)

    [Record] is a keyword of Rocq, so the struct [Record] is called [Rec]
    and its fields carry the prefix [r]. *)

Record Name := mkName {
  First : string;
  Middle : string;
  Last : string
}.

Record Rec := mkRec {
  InternalID : Z;
  rName : Name;
  rPhone : string
}.

(** ** Library: strconv.Atoi

    [Atoi] as in strconv/atoi.go on a 64-bit platform: strings of 1 to 18
    bytes take the fast path (optional sign, then decimal digits, no range
    check needed); every other string goes through [ParseInt(s, 10, 0)]. *)

Inductive NumErr := ErrSyntax | ErrRange.

Record NumError := mkNumError { Func : string; Num : string; NumErrOf : NumErr }.

Definition byteOf (c : ascii) : Z := Z.of_nat (nat_of_ascii c).

Definition isSign (c : ascii) : bool :=
  bool_decide (byteOf c = 45)%Z || bool_decide (byteOf c = 43)%Z.

(** The digit loop of the fast path: [ch -= '0'; if ch > 9 { error }]. *)
Fixpoint atoiDigits (n : Z) (s : string) : option Z :=
  match s with
  | EmptyString => Some n
  | String ch s' =>
      let d := (byteOf ch - 48)%Z in
      if bool_decide (0 ≤ d ≤ 9)%Z then atoiDigits (n * 10 + d) s' else None
  end.

(** The digit loop of [ParseUint] in base 10 with [bitSize = 64]:
    a byte that is not a digit is a syntax error, an overflow of the
    unsigned 64-bit accumulator is a range error, whichever comes first. *)
Fixpoint parseUintDigits (n : Z) (s : string) : Z + NumErr :=
  match s with
  | EmptyString => inl n
  | String ch s' =>
      let d := (byteOf ch - 48)%Z in
      if bool_decide (0 ≤ d ≤ 9)%Z then
        if bool_decide ((2 ^ 64 - 1) `div` 10 + 1 ≤ n)%Z then inr ErrRange
        else if bool_decide (2 ^ 64 - 1 < n * 10 + d)%Z then inr ErrRange
        else parseUintDigits (n * 10 + d) s'
      else inr ErrSyntax
  end.

Definition parseInt (s : string) : Z + NumErr :=
  match s with
  | EmptyString => inr ErrSyntax
  | String c rest =>
      let neg := bool_decide (byteOf c = 45)%Z in
      let body := if isSign c then rest else s in
      match body with
      | EmptyString => inr ErrSyntax
      | _ =>
          match parseUintDigits 0 body with
          | inr e => inr e
          | inl un =>
              if negb neg && bool_decide (2 ^ 63 ≤ un)%Z then inr ErrRange
              else if neg && bool_decide (2 ^ 63 < un)%Z then inr ErrRange
              else inl (if neg then - un else un)%Z
          end
      end
  end.

Definition Atoi (s : string) : Z + NumError :=
  let sLen := String.length s in
  if bool_decide (0 < sLen)%nat && bool_decide (sLen < 19)%nat then
    match s with
    | EmptyString => inr (mkNumError "Atoi" s ErrSyntax)
    | String c rest =>
        let body := if isSign c then rest else s in
        if bool_decide (String.length body < 1)%nat then
          inr (mkNumError "Atoi" s ErrSyntax)
        else
          match atoiDigits 0 body with
          | None => inr (mkNumError "Atoi" s ErrSyntax)
          | Some n => inl (if bool_decide (byteOf c = 45)%Z then - n else n)%Z
          end
    end
  else
    match parseInt s with
    | inl n => inl n
    | inr e => inr (mkNumError "Atoi" s e)
    end.

(** ** Library: filepath.Ext and strings.ToLower

    [Ext] scans the path from its last byte towards the first, stops with
    the empty extension at a path separator and returns the suffix that
    starts at the first dot it meets. *)

Fixpoint extScan (rpath : list ascii) (suffix : list ascii) : string :=
  match rpath with
  | [] => ""
  | c :: rest =>
      if bool_decide (byteOf c = 47)%Z then ""
      else if bool_decide (byteOf c = 46)%Z then String.string_of_list_ascii (c :: suffix)
      else extScan rest (c :: suffix)
  end.

Definition Ext (path : string) : string :=
  extScan (rev (String.list_ascii_of_string path)) [].

(** [strings.ToLower] on the ASCII letters.  Bytes of a multi-byte rune are
    left as they are; no rune outside ASCII lowers to one of the bytes of
    [.csv], so the comparison in [processFile] is not affected. *)
Definition lowerByte (c : ascii) : ascii :=
  if bool_decide (65 ≤ byteOf c ≤ 90)%Z then ascii_of_nat (nat_of_ascii c + 32) else c.

Fixpoint ToLower (s : string) : string :=
  match s with
  | EmptyString => EmptyString
  | String c s' => String (lowerByte c) (ToLower s')
  end.

(** [strings.TrimSuffix]. *)
Definition TrimSuffix (s suffix : string) : string :=
  let n := String.length s in
  let k := String.length suffix in
  if bool_decide (k ≤ n)%nat && bool_decide (String.substring (n - k) k s = suffix)
  then String.substring 0 (n - k) s else s.

(** ** Library: the regular expression [^\d{3}-\d{3}-\d{4}$]

    In Go's syntax [\d] is an ASCII digit and, without the [m] flag, [^] and
    [$] match only at the two ends of the text.  [MatchString] therefore
    accepts exactly the 12-byte strings made of the classes below. *)

Inductive cls := D | Hyphen.

Definition phonePattern : list cls :=
  [D; D; D; Hyphen; D; D; D; Hyphen; D; D; D; D].

Definition inCls (k : cls) (c : ascii) : bool :=
  match k with
  | D => bool_decide (48 ≤ byteOf c ≤ 57)%Z
  | Hyphen => bool_decide (byteOf c = 45)%Z
  end.

Fixpoint matchClasses (p : list cls) (s : string) : bool :=
  match p, s with
  | [], EmptyString => true
  | k :: p', String c s' => inCls k c && matchClasses p' s'
  | _, _ => false
  end.

Definition phoneRegexp_MatchString (s : string) : bool :=
  matchClasses phonePattern s.

(** ** Library: encoding/csv.Reader

    [csv.NewReader] leaves [FieldsPerRecord] at 0, so [Read] sets it to the
    number of fields of the first record it produces and from then on turns
    every record of another length into [ErrFieldCount] (reader.go, end of
    [readRecord]).  The byte-level splitting into lines and fields is the
    library's; its result for one record is a [RawRecord]: either the fields
    of a well-formed record, of which there is always at least one, or the
    fields split off before a quoting error together with that error.  The
    input is a regular file: the byte stream ends and [Read] then returns
    [io.EOF]. *)

Inductive csvErr := ErrBareQuote | ErrQuote | ErrFieldCount.

Record ParseError := mkParseError {
  StartLine : Z;
  Line : Z;
  Column : Z;
  Err : csvErr
}.

Inductive RawRecord :=
  | Parsed (recLine : Z) (f : string) (fs : list string)
  | Malformed (partial : list string) (e : ParseError).

Definition rawFields (raw : RawRecord) : list string :=
  match raw with
  | Parsed _ f fs => f :: fs
  | Malformed partial _ => partial
  end.

Definition rawErr (raw : RawRecord) : option ParseError :=
  match raw with
  | Parsed _ _ _ => None
  | Malformed _ e => Some e
  end.

Definition rawLine (raw : RawRecord) : Z :=
  match raw with
  | Parsed recLine _ _ => recLine
  | Malformed _ e => StartLine e
  end.

(** The tail of [readRecord]: check or update the expected number of
    fields.  Returns the record, the error and the new [FieldsPerRecord]. *)
Definition readRecord (FieldsPerRecord : nat) (raw : RawRecord)
  : list string * option ParseError * nat :=
  let dst := rawFields raw in
  let err := rawErr raw in
  if bool_decide (0 < FieldsPerRecord)%nat then
    match err with
    | None =>
        if bool_decide (length dst ≠ FieldsPerRecord) then
          (dst, Some (mkParseError (rawLine raw) (rawLine raw) 0 ErrFieldCount),
           FieldsPerRecord)
        else (dst, None, FieldsPerRecord)
    | Some e => (dst, Some e, FieldsPerRecord)
    end
  else (dst, err, length dst).

(** ** Error values

    One constructor per error the program builds, with the arguments of
    its format string; [OSError] stands for the errors returned by the
    [os] and [ioutil] calls. *)

Inductive error :=
  | CSVError (e : ParseError)
  | ErrNumFields (nrecord nheader : nat)
  | ErrMissing (field : string)
  | ErrIDLength (s : string)
  | ErrIDInvalid (s : string) (e : NumError)
  | ErrIDNegative (n : Z)
  | ErrFirstLong (s : string)
  | ErrFirstEmpty
  | ErrMiddleLong (s : string)
  | ErrLastLong (s : string)
  | ErrLastEmpty
  | ErrPhoneInvalid (s : string)
  | OSError (msg : string).

(** ** Outcome of the validation of one row *)

Inductive result (A : Type) :=
  | Ok (a : A)
  | Fail (e : error)
  | Panic.
Arguments Ok {A} a.
Arguments Fail {A} e.
Arguments Panic {A}.

Global Instance result_bind : MBind result := λ A B f m,
  match m with
  | Ok a => f a
  | Fail e => Fail e
  | Panic => Panic
  end.

(** [record[id]]: a run-time panic when [id] is out of range. *)
Definition index (record : list string) (id : nat) : result string :=
  match record !! id with
  | Some s => Ok s
  | None => Panic
  end.

(** ** The Header Map (main.go, lines 175-181)

    [for i, val := range record { header[val] = i }]: a later column with
    the same name overwrites the earlier index. *)

Fixpoint rangeInsert (i : nat) (record : list string) (header : gmap string nat)
  : gmap string nat :=
  match record with
  | [] => header
  | val :: rest => rangeInsert (S i) rest (<[val := i]> header)
  end.

Definition mkHeader (record : list string) : gmap string nat :=
  rangeInsert 0 record ∅.

(** ** Validation of a data row (main.go, lines 182-254)

    The body of the loop from the field-count check to the phone check;
    every [errFunc(...); continue] is a [Fail]. *)

Definition validateRow (header : gmap string nat) (record : list string) : result Rec :=
  if bool_decide (length record ≠ size header) then
    Fail (ErrNumFields (length record) (size header))
  else
  match header !! ID with
  | None => Fail (ErrMissing ID)
  | Some id =>
  s ← index record id;
  if bool_decide (String.length s ≠ 8) then Fail (ErrIDLength s) else
  match Atoi s with
  | inr err => Fail (ErrIDInvalid s err)
  | inl internalID =>
  if bool_decide (internalID < 0)%Z then Fail (ErrIDNegative internalID) else
  match header !! FName with
  | None => Fail (ErrMissing FName)
  | Some id =>
  first ← index record id;
  if bool_decide (15 < String.length first)%nat then Fail (ErrFirstLong first) else
  if bool_decide (first = "") then Fail ErrFirstEmpty else
  match header !! MName with
  | None => Fail (ErrMissing MName)
  | Some id =>
  middle ← index record id;
  if bool_decide (15 < String.length middle)%nat then Fail (ErrMiddleLong middle) else
  match header !! LName with
  | None => Fail (ErrMissing LName)
  | Some id =>
  last ← index record id;
  if bool_decide (15 < String.length last)%nat then Fail (ErrLastLong last) else
  if bool_decide (last = "") then Fail ErrLastEmpty else
  match header !! Phone with
  | None => Fail (ErrMissing Phone)
  | Some id =>
  phone ← index record id;
  if negb (phoneRegexp_MatchString phone) then Fail (ErrPhoneInvalid phone) else
  Ok (mkRec internalID (mkName first middle last) phone)
  end end end end end end.

(** ** Messages of the library errors *)

Definition csvErrMsg (e : csvErr) : string :=
  match e with
  | ErrBareQuote => "bare " +:+ dq +:+ " in non-quoted-field"
  | ErrQuote => "extraneous or missing " +:+ dq +:+ " in quoted-field"
  | ErrFieldCount => "wrong number of fields"
  end.

(** The method [Error] of [ParseError]. *)
Definition ParseError_Error (e : ParseError) : string :=
  match Err e with
  | ErrFieldCount =>
      "record on line " +:+ pretty (Line e) +:+ ": " +:+ csvErrMsg (Err e)
  | _ =>
      if bool_decide (StartLine e ≠ Line e) then
        "record on line " +:+ pretty (StartLine e) +:+ "; parse error on line "
          +:+ pretty (Line e) +:+ ", column " +:+ pretty (Column e) +:+ ": "
          +:+ csvErrMsg (Err e)
      else
        "parse error on line " +:+ pretty (Line e) +:+ ", column "
          +:+ pretty (Column e) +:+ ": " +:+ csvErrMsg (Err e)
  end.

Definition NumErrMsg (e : NumErr) : string :=
  match e with
  | ErrSyntax => "invalid syntax"
  | ErrRange => "value out of range"
  end.

(** ** Concrete stand-ins for four library functions

    The converter below is parametric in [strconv.Quote], in the string
    encoder of [encoding/json], in [filepath.Base] and in [filepath.Join].
    The functions of this paragraph agree with them on the inputs used in
    the examples at the end of the file: strings of printable ASCII
    characters without a double quote, a backslash, [<], [>] or [&], and
    clean relative paths. *)

Definition quotePlain (s : string) : string := dq +:+ s +:+ dq.

Fixpoint lastElem (acc : string) (path : string) : string :=
  match path with
  | EmptyString => acc
  | String c rest =>
      if bool_decide (byteOf c = 47)%Z then lastElem "" rest
      else lastElem (acc +:+ String c "") rest
  end.

Definition basePlain (path : string) : string := lastElem "" path.

Definition joinPlain (dir name : string) : string := dir +:+ "/" +:+ name.

(** ** The file converter *)

(** State of the loop of [processFile]: the variables [records], [errs],
    [header] ([None] is the nil map) and [line]. *)
Record LoopState := mkLoopState {
  records : list Rec;
  errs : list (list string);
  header : option (gmap string nat);
  line : Z
}.

(** main.go, lines 138-145. *)
Definition initState : LoopState :=
  mkLoopState [] [["LINE_NUM"; "ERROR_MSG"]] None 1.

(** The calls of [processFile] that change the file system, in the order
    in which they are made, with their arguments. *)
Inductive Event :=
  | WriteFile (name data : string)
  | OpenFile (name : string)
  | WriteAll (name : string) (rows : list (list string))
  | Remove (path : string).

(** How a call of [processFile] ends: it returns (nil or an error), the
    process exits through [logrus.Fatal], or an index is out of range. *)
Inductive Outcome :=
  | Return (err : option error)
  | Exit
  | Panicked.

(** The answers of the operating system to the calls of [processFile]:
    [os.Open] followed by the reads of the csv reader, [ioutil.WriteFile],
    [os.OpenFile], [WriteAll] of the csv writer and [os.Remove]. *)
Record OS := mkOS {
  os_Open : string → list RawRecord + error;
  ioutil_WriteFile : string → string → option error;
  os_OpenFile : string → option error;
  csv_WriteAll : string → list (list string) → option error;
  os_Remove : string → option error
}.

(** ** Inputs of the examples *)

Definition stdHeader : gmap string nat := mkHeader [ID; FName; MName; LName; Phone].

(** An operating system on which every call succeeds and every file holds
    [input]; one on which the error file cannot be opened; one on which
    the JSON file cannot be written. *)
Definition okOS (input : list RawRecord) : OS :=
  mkOS (λ _, inl input) (λ _ _, None) (λ _, None) (λ _ _, None) (λ _, None).

Definition noErrorDirOS (input : list RawRecord) : OS :=
  mkOS (λ _, inl input) (λ _ _, None) (λ _, Some (OSError "permission denied"))
       (λ _ _, None) (λ _, None).

Definition noOutputDirOS (input : list RawRecord) : OS :=
  mkOS (λ _, inl input) (λ _ _, Some (OSError "permission denied")) (λ _, None)
       (λ _ _, None) (λ _, None).

Definition exHeaderRow : list string := [ID; FName; MName; LName; Phone].
Definition exHeader : RawRecord := Parsed 1 ID [FName; MName; LName; Phone].
Definition exValidRow : list string := ["12345678"; "Jane"; "Q"; "Doe"; "555-123-4567"].
Definition exValid : RawRecord := Parsed 2 "12345678" ["Jane"; "Q"; "Doe"; "555-123-4567"].
Definition exShortID : RawRecord := Parsed 3 "1234567" ["Jane"; "Q"; "Doe"; "5551234567"].

(** A line with a bare double quote inside its first, unquoted field. *)
Definition exBareQuote : RawRecord := Malformed [] (mkParseError 1 1 1 ErrBareQuote).

(** A header line in which the name [NOTE] occurs twice, and a row with as
    many fields. *)
Definition exDupHeaderRow : list string :=
  [ID; FName; MName; LName; Phone; "NOTE"; "NOTE"].
Definition exDupHeader : RawRecord :=
  Parsed 1 ID [FName; MName; LName; Phone; "NOTE"; "NOTE"].
Definition exDupRow : list string :=
  ["12345678"; "Jane"; "Q"; "Doe"; "555-123-4567"; "x"; "y"].
Definition exDupValid : RawRecord :=
  Parsed 2 "12345678" ["Jane"; "Q"; "Doe"; "555-123-4567"; "x"; "y"].

(** A first name of eight letters, each the two bytes of an e with an acute
    accent, and a row that carries it. *)
Definition exAccent : string := String (ascii_of_nat 195) (String (ascii_of_nat 169) "").
Definition exAccentName : string :=
  exAccent +:+ exAccent +:+ exAccent +:+ exAccent
    +:+ exAccent +:+ exAccent +:+ exAccent +:+ exAccent.
Definition exAccentRow : list string :=
  ["12345678"; exAccentName; "Q"; "Doe"; "555-123-4567"].
Definition exAccentLine : RawRecord :=
  Parsed 2 "12345678" [exAccentName; "Q"; "Doe"; "555-123-4567"].

(** Two rows that stand on line 4 of the file, after two empty lines: one
    with an id of seven digits, one with two fields. *)
Definition exLateShortID : RawRecord :=
  Parsed 4 "1234567" ["Jane"; "Q"; "Doe"; "555-123-4567"].
Definition exLateTwoFields : RawRecord := Parsed 4 "12345678" ["Jane"].

(** The state of the loop after the header line [exHeader], and after
    [exHeader] and [exValid]. *)
Definition exState : LoopState :=
  mkLoopState [] [["LINE_NUM"; "ERROR_MSG"]] (Some (mkHeader exHeaderRow)) 2.

Definition exState3 : LoopState :=
  mkLoopState [mkRec 12345678 (mkName "Jane" "Q" "Doe") "555-123-4567"]
              [["LINE_NUM"; "ERROR_MSG"]] (Some (mkHeader exHeaderRow)) 3.

Section Converter.

(** [strconv.Quote], which renders the verb [%q]; the encoder of a Go
    string as a JSON string; [filepath.Base]; [filepath.Join] of two
    elements; and the two directories read from the flags. *)
Variable Quote : string → string.
Variable jsonString : string → string.
Variable Base : string → string.
Variable Join : string → string → string.
Variable outputDir : string.
Variable errorDir : string.

(** The method [Error] of [NumError]. *)
Definition NumError_Error (e : NumError) : string :=
  "strconv." +:+ Func e +:+ ": parsing " +:+ Quote (Num e) +:+ ": "
    +:+ NumErrMsg (NumErrOf e).

(** [err.Error()] for the errors of the program, format by format. *)
Definition Error (e : error) : string :=
  match e with
  | CSVError pe => ParseError_Error pe
  | ErrNumFields nrecord nheader =>
      "err: number of fields: " +:+ pretty nrecord +:+ " does not match header: "
        +:+ pretty nheader
  | ErrMissing field => "err: missing: " +:+ Quote field +:+ " error field in header"
  | ErrIDLength s => "err: id field: " +:+ Quote s +:+ " is not an 8 digit integer"
  | ErrIDInvalid s err =>
      "err: id field: " +:+ Quote s +:+ " either empty, or an invalid integer, "
        +:+ NumError_Error err
  | ErrIDNegative n => "err: id: " +:+ pretty n +:+ " should not be negative"
  | ErrFirstLong s =>
      "err: first name field: " +:+ Quote s +:+ " should not exceed 15 characters"
  | ErrFirstEmpty => "err: first name field should not be empty"
  | ErrMiddleLong s =>
      "err: middle name field: " +:+ Quote s +:+ " should not exceed 15 characters"
  | ErrLastLong s =>
      "err: last name field: " +:+ Quote s +:+ " should not exceed 15 characters"
  | ErrLastEmpty => "err: last name field should not be empty"
  | ErrPhoneInvalid s =>
      "err: phone field: " +:+ Quote s +:+ " either empty, or an invalid phone number"
  | OSError msg => msg
  end.

(** One row of the error report: [[]string{fmt.Sprintf("%d", line), err.Error()}]. *)
Definition errRow (line : Z) (err : error) : list string :=
  [pretty line; Error err].

(** main.go, lines 148-151 (the log entry is not modelled). *)
Definition errFunc (st : LoopState) (err : error) : LoopState :=
  mkLoopState (records st) (errs st ++ [errRow (line st) err])%list (header st) (line st).

(** The post statement [line++] of the loop, run after the body and after
    every [continue]. *)
Definition nextLine (st : LoopState) : LoopState :=
  mkLoopState (records st) (errs st) (header st) (line st + 1).

(** One pass through the body of the loop for a [Read] that did not return
    [io.EOF] (main.go, lines 166-256).  [None] is a panic. *)
Definition iteration (st : LoopState) (record : list string) (err : option ParseError)
  : option LoopState :=
  match err with
  | Some e => Some (nextLine (errFunc st (CSVError e)))
  | None =>
      match header st with
      | None =>
          Some (nextLine (mkLoopState (records st) (errs st) (Some (mkHeader record)) (line st)))
      | Some h =>
          match validateRow h record with
          | Fail e => Some (nextLine (errFunc st e))
          | Ok rec =>
              Some (nextLine (mkLoopState (records st ++ [rec])%list (errs st) (header st) (line st)))
          | Panic => None
          end
      end
  end.

(** The loop [for line := 1; ; line++] over the records the reader
    delivers; the empty input is [io.EOF]. *)
Fixpoint readLoop (FieldsPerRecord : nat) (st : LoopState) (input : list RawRecord)
  : option LoopState :=
  match input with
  | [] => Some st
  | raw :: rest =>
      let '(record, err, fpr) := readRecord FieldsPerRecord raw in
      match iteration st record err with
      | None => None
      | Some st' => readLoop fpr st' rest
      end
  end.

(** [json.MarshalIndent] on [[]Record] with an empty prefix and an indent
    of two spaces: the nil slice is encoded as [null]; [middle] is dropped
    when empty ([omitempty]). *)
Definition jsonKey (k : string) : string := dq +:+ k +:+ dq +:+ ": ".

Definition marshalName (n : Name) : string :=
  "{" +:+ nl
  +:+ "      " +:+ jsonKey "first" +:+ jsonString (First n) +:+ "," +:+ nl
  +:+ (if bool_decide (Middle n = "") then ""
       else "      " +:+ jsonKey "middle" +:+ jsonString (Middle n) +:+ "," +:+ nl)
  +:+ "      " +:+ jsonKey "last" +:+ jsonString (Last n) +:+ nl
  +:+ "    }".

Definition marshalRec (r : Rec) : string :=
  "  {" +:+ nl
  +:+ "    " +:+ jsonKey "id" +:+ pretty (InternalID r) +:+ "," +:+ nl
  +:+ "    " +:+ jsonKey "name" +:+ marshalName (rName r) +:+ "," +:+ nl
  +:+ "    " +:+ jsonKey "phone" +:+ jsonString (rPhone r) +:+ nl
  +:+ "  }".

Fixpoint marshalTail (rs : list Rec) : string :=
  match rs with
  | [] => nl +:+ "]"
  | r :: rs' => "," +:+ nl +:+ marshalRec r +:+ marshalTail rs'
  end.

Definition MarshalIndent (records : list Rec) : string :=
  match records with
  | [] => "null"
  | r :: rs => "[" +:+ nl +:+ marshalRec r +:+ marshalTail rs
  end.

(** main.go, lines 292-298: remove the processed file. *)
Definition removeStep (os : OS) (path : string) (done : list Event)
  : list Event * Outcome :=
  match os_Remove os path with
  | Some err => ((done ++ [Remove path])%list, Return (Some err))
  | None => ((done ++ [Remove path])%list, Return None)
  end.

(** main.go, lines 137-299. *)
Definition processFile (os : OS) (path : string) : list Event * Outcome :=
  let ext := Ext path in
  if bool_decide (ToLower ext = ".csv") then
    match os_Open os path with
    | inr err => ([], Return (Some err))
    | inl input =>
        match readLoop 0 initState input with
        | None => ([], Panicked)
        | Some st =>
            let data := MarshalIndent (records st) in
            let out := Join outputDir (TrimSuffix (Base path) ext +:+ "." +:+ "json") in
            match ioutil_WriteFile os out data with
            | Some err => ([WriteFile out data], Return (Some err))
            | None =>
                if bool_decide (1 < length (errs st))%nat then
                  let errName := Join errorDir (Base path) in
                  match os_OpenFile os errName with
                  | Some err => ([WriteFile out data; OpenFile errName], Exit)
                  | None =>
                      match csv_WriteAll os errName (errs st) with
                      | Some err =>
                          ([WriteFile out data; OpenFile errName;
                            WriteAll errName (errs st)], Exit)
                      | None =>
                          removeStep os path
                            [WriteFile out data; OpenFile errName;
                             WriteAll errName (errs st)]
                      end
                  end
                else removeStep os path [WriteFile out data]
            end
        end
    end
  else ([], Return None).

(** The loop of [main] over the files found at start-up (main.go, lines
    119-125): a returned error is logged and the loop goes on; the process
    is gone when [processFile] does not return. *)
Inductive Process := Running | Terminated.

Fixpoint processFiles (os : OS) (files : list string) : list Event * Process :=
  match files with
  | [] => ([], Running)
  | file :: rest =>
      match processFile os file with
      | (evs, Return _) =>
          let '(evs', p) := processFiles os rest in ((evs ++ evs')%list, p)
      | (evs, _) => (evs, Terminated)
      end
  end.


(** ** The reader seen from outside

    The sequence of results that successive calls of [Read] return before
    [io.EOF], and the value of [FieldsPerRecord] after them. *)

Definition Reads := list (list string * option ParseError).

Fixpoint readAll (FieldsPerRecord : nat) (input : list RawRecord) : Reads :=
  match input with
  | [] => []
  | raw :: rest =>
      let '(record, err, fpr) := readRecord FieldsPerRecord raw in
      (record, err) :: readAll fpr rest
  end.

Fixpoint fprAfter (FieldsPerRecord : nat) (input : list RawRecord) : nat :=
  match input with
  | [] => FieldsPerRecord
  | raw :: rest => fprAfter (readRecord FieldsPerRecord raw).2 rest
  end.

(** ** The checks of [validateRow], one by one

    The fifteen tests that [validateRow] makes, each written on its own as a
    function that yields the error of the test when the row fails it;
    [column] is the value of a named column.  As in the code, the first
    test compares the row with the number of entries of the Header Map and
    the length tests count bytes. *)

Definition Rule := gmap string nat → list string → option error.

Definition column (h : gmap string nat) (row : list string) (name : string) : string :=
  default "" (h !! name ≫= λ id, row !! id).

Definition checkMapSize : Rule := λ h row,
  if bool_decide (length row ≠ size h) then Some (ErrNumFields (length row) (size h))
  else None.

Definition rulePresent (name : string) : Rule := λ h row,
  match h !! name with
  | None => Some (ErrMissing name)
  | Some _ => None
  end.

Definition checkIDBytes : Rule := λ h row,
  let s := column h row ID in
  if bool_decide (String.length s ≠ 8) then Some (ErrIDLength s) else None.

Definition ruleIDParse : Rule := λ h row,
  let s := column h row ID in
  match Atoi s with
  | inr e => Some (ErrIDInvalid s e)
  | inl _ => None
  end.

Definition ruleIDSign : Rule := λ h row,
  match Atoi (column h row ID) with
  | inl n => if bool_decide (n < 0)%Z then Some (ErrIDNegative n) else None
  | inr _ => None
  end.

Definition checkMaxBytes (name : string) (mk : string → error) : Rule := λ h row,
  let s := column h row name in
  if bool_decide (15 < String.length s)%nat then Some (mk s) else None.

Definition ruleNonEmpty (name : string) (e : error) : Rule := λ h row,
  if bool_decide (column h row name = "") then Some e else None.

Definition rulePhoneFormat : Rule := λ h row,
  let s := column h row Phone in
  if phoneRegexp_MatchString s then None else Some (ErrPhoneInvalid s).

Definition checks : list Rule :=
  [ checkMapSize;
    rulePresent ID; checkIDBytes; ruleIDParse; ruleIDSign;
    rulePresent FName; checkMaxBytes FName ErrFirstLong; ruleNonEmpty FName ErrFirstEmpty;
    rulePresent MName; checkMaxBytes MName ErrMiddleLong;
    rulePresent LName; checkMaxBytes LName ErrLastLong; ruleNonEmpty LName ErrLastEmpty;
    rulePresent Phone; rulePhoneFormat ].

(** The error of the first test or rule, in the order of the list, that
    the row fails. *)
Fixpoint firstViolation (rs : list Rule) (h : gmap string nat) (row : list string)
  : option error :=
  match rs with
  | [] => None
  | r :: rs' =>
      match r h row with
      | Some e => Some e
      | None => firstViolation rs' h row
      end
  end.

(** The Record whose fields are the columns of the row as they stand, the
    id being the integer its column denotes. *)
Definition recordOf (h : gmap string nat) (row : list string) : Rec :=
  mkRec (match Atoi (column h row ID) with inl n => n | inr _ => 0%Z end)
        (mkName (column h row FName) (column h row MName) (column h row LName))
        (column h row Phone).

(** ** The rules of section 4.2 in the words of the specification

    Rule 1 compares the field count of the row with that of the header
    line.  The length rules are stated for a way [len] of measuring a
    string: the specification counts characters, the code counts bytes.
    [countError] is the error that reports a wrong field count. *)

(** The characters of a UTF-8 text: every byte starts one, except the
    continuation bytes, which lie between 128 and 191. *)
Definition isContinuationByte (c : ascii) : bool :=
  bool_decide (128 ≤ byteOf c < 192)%Z.

Fixpoint charCount (s : string) : nat :=
  match s with
  | EmptyString => 0
  | String c s' => (if isContinuationByte c then 0 else 1) + charCount s'
  end.

Definition ruleFieldCount (hrow : list string) (countError : list string → error)
  : Rule := λ _ row,
  if bool_decide (length row ≠ length hrow) then Some (countError row) else None.

Definition ruleIDLength (len : string → nat) : Rule := λ h row,
  let s := column h row ID in
  if bool_decide (len s ≠ 8) then Some (ErrIDLength s) else None.

Definition ruleMaxLength (len : string → nat) (name : string) (mk : string → error)
  : Rule := λ h row,
  let s := column h row name in
  if bool_decide (15 < len s) then Some (mk s) else None.

Definition rulesOf (len : string → nat) (hrow : list string)
    (countError : list string → error) : list Rule :=
  [ ruleFieldCount hrow countError;
    rulePresent ID; ruleIDLength len; ruleIDParse; ruleIDSign;
    rulePresent FName; ruleMaxLength len FName ErrFirstLong;
    ruleNonEmpty FName ErrFirstEmpty;
    rulePresent MName; ruleMaxLength len MName ErrMiddleLong;
    rulePresent LName; ruleMaxLength len LName ErrLastLong;
    ruleNonEmpty LName ErrLastEmpty;
    rulePresent Phone; rulePhoneFormat ].

(** The rules as section 4.2 states them: lengths in characters. *)
Definition specRules (hrow : list string) : list Rule :=
  rulesOf charCount hrow (λ row, ErrNumFields (length row) (length hrow)).

(** The rules with lengths in bytes, for a line that starts on line [n] of
    the file: a wrong field count is the error of the csv reader. *)
Definition byteRules (hrow : list string) (n : Z) : list Rule :=
  rulesOf String.length hrow (λ _, CSVError (mkParseError n n 0 ErrFieldCount)).

(** ** Lines and what they contribute

    The header line of an input is the first record read without error.
    [headerRow] is that record and [headerPos] its position, counted from
    0, in the sequence of reads. *)

Fixpoint headerRow (reads : Reads) : option (list string) :=
  match reads with
  | [] => None
  | (record, None) :: _ => Some record
  | (_, Some _) :: rest => headerRow rest
  end.

Fixpoint headerPos (reads : Reads) : option nat :=
  match reads with
  | [] => None
  | (_, None) :: _ => Some 0
  | (_, Some _) :: rest => S <$> headerPos rest
  end.

(** The error, if any, that the read at position [k] adds to the report:
    the reader's own error, or the error of the validation against the
    header line read before position [k]; the header line itself adds
    nothing. *)
Definition lineError (reads : Reads) (k : nat) (rd : list string * option ParseError)
  : option error :=
  match rd.2 with
  | Some e => Some (CSVError e)
  | None =>
      match headerRow (take k reads) with
      | None => None
      | Some hrow =>
          match validateRow (mkHeader hrow) rd.1 with
          | Fail e => Some e
          | _ => None
          end
      end
  end.

(** The rows of the error report below its header row: for each read, in
    order, its 1-based position followed by the message of its error. *)
Definition reportRows (reads : Reads) : list (list string) :=
  omap id (imap (λ k rd, errRow (Z.of_nat k + 1) <$> lineError reads k rd) reads).

Definition linesAfterHeader (reads : Reads) : nat :=
  match headerPos reads with
  | Some p => length reads - S p
  | None => 0
  end.

Definition linesBeforeHeader (reads : Reads) : nat :=
  match headerPos reads with
  | Some p => p
  | None => length reads
  end.

(** Every index of the Header Map is a position of the row. *)
Definition inBounds (h : gmap string nat) (record : list string) : Prop :=
  ∀ name id, h !! name = Some id → id < length record.

(** The data passed to [ioutil.WriteFile] by the calls in a trace. *)
Definition jsonWritten (evs : list Event) : list string :=
  omap (λ ev, match ev with WriteFile _ data => Some data | _ => None end) evs.


(** ** Further notions used in the properties below *)

(** The five column names that [processFile] looks up. *)
Definition required : list string := [ID; FName; MName; LName; Phone].

(** The position of the last occurrence of a name in a header line. *)
Fixpoint lastIndex (name : string) (record : list string) : option nat :=
  match record with
  | [] => None
  | val :: rest =>
      match lastIndex name rest with
      | Some k => Some (S k)
      | None => if decide (val = name) then Some 0 else None
      end
  end.

(** What the checks of [processFile] leave true of a Record: an id of at
    most eight decimal digits, names within their lengths, and a phone
    number of twelve bytes with its two hyphens in place. *)
Definition wellFormed (r : Rec) : Prop :=
  (0 ≤ InternalID r < 100000000)%Z
  ∧ 1 ≤ String.length (First (rName r)) ≤ 15
  ∧ String.length (Middle (rName r)) ≤ 15
  ∧ 1 ≤ String.length (Last (rName r)) ≤ 15
  ∧ String.length (rPhone r) = 12
  ∧ String.get 3 (rPhone r) = Some "-"%char
  ∧ String.get 7 (rPhone r) = Some "-"%char
  ∧ phoneRegexp_MatchString (rPhone r) = true.

(** A string of decimal digits. *)
Fixpoint isDigits (s : string) : bool :=
  match s with
  | EmptyString => true
  | String ch s' => bool_decide (48 ≤ byteOf ch ≤ 57)%Z && isDigits s'
  end.

(** * Properties *)

(** ** The Header Map *)

Lemma rangeInsert_lookup (record : list string) (i : nat) (h : gmap string nat)
    (name : string) (id : nat) :
  rangeInsert i record h !! name = Some id →
  h !! name = Some id ∨ (i ≤ id < i + length record)%nat.
Proof.
  revert i h. induction record as [|val rest IH]; intros i h Hl; simpl in *.
  - by left.
  - apply IH in Hl as [Hl | Hl]; [|right; lia].
    rewrite lookup_insert in Hl. case_decide; [|by left].
    simplify_eq. right. lia.
Qed.

Lemma mkHeader_lookup_lt (record : list string) (name : string) (id : nat) :
  mkHeader record !! name = Some id → (id < length record)%nat.
Proof.
  intros Hl. apply rangeInsert_lookup in Hl as [Hl | Hl]; [|lia].
  by rewrite lookup_empty in Hl.
Qed.

(** ** Validation of one row *)

Lemma index_column (h : gmap string nat) (record : list string) (name : string) (id : nat) :
  inBounds h record → h !! name = Some id →
  index record id = Ok (column h record name).
Proof.
  intros Hb Hl. unfold index, column. rewrite Hl. simpl.
  destruct (lookup_lt_is_Some_2 record id (Hb _ _ Hl)) as [s Hs].
  by rewrite Hs.
Qed.

Lemma validateRow_rules (h : gmap string nat) (record : list string) :
  inBounds h record →
  validateRow h record =
    match firstViolation checks h record with
    | Some e => Fail e
    | None => Ok (recordOf h record)
    end.
Proof.
  intros Hb. unfold validateRow, recordOf. simpl.
  unfold checkMapSize. case_bool_decide; [done|].
  unfold rulePresent at 1. destruct (h !! ID) as [id|] eqn:HID; [|done].
  rewrite (index_column _ _ _ _ Hb HID). simpl.
  unfold checkIDBytes. simpl. case_bool_decide; [done|].
  unfold ruleIDParse, ruleIDSign.
  destruct (Atoi (column h record ID)) as [n|e]; [|done].
  case_bool_decide; [done|].
  unfold rulePresent at 1. destruct (h !! FName) as [idf|] eqn:HF; [|done].
  rewrite (index_column _ _ _ _ Hb HF). simpl.
  unfold checkMaxBytes at 1. simpl. case_bool_decide; [done|].
  unfold ruleNonEmpty at 1. case_bool_decide; [done|].
  unfold rulePresent at 1. destruct (h !! MName) as [idm|] eqn:HM; [|done].
  rewrite (index_column _ _ _ _ Hb HM). simpl.
  unfold checkMaxBytes at 1. simpl. case_bool_decide; [done|].
  unfold rulePresent at 1. destruct (h !! LName) as [idl|] eqn:HL; [|done].
  rewrite (index_column _ _ _ _ Hb HL). simpl.
  unfold checkMaxBytes at 1. simpl. case_bool_decide; [done|].
  unfold ruleNonEmpty at 1. case_bool_decide; [done|].
  unfold rulePresent at 1. destruct (h !! Phone) as [idp|] eqn:HP; [|done].
  rewrite (index_column _ _ _ _ Hb HP). simpl.
  unfold rulePhoneFormat.
  by destruct (phoneRegexp_MatchString (column h record Phone)).
Qed.

Lemma validateRow_no_panic (h : gmap string nat) (record : list string) :
  inBounds h record → validateRow h record ≠ Panic.
Proof.
  intros Hb. rewrite validateRow_rules by done.
  by destruct (firstViolation checks h record).
Qed.


(** ** The reader *)

Lemma readAll_snoc (l : list RawRecord) (raw : RawRecord) (fpr : nat) :
  readAll fpr (l ++ [raw]) = (readAll fpr l ++ [(readRecord (fprAfter fpr l) raw).1])%list.
Proof.
  revert fpr. induction l as [|r l IH]; intros fpr; simpl.
  - by destruct (readRecord fpr raw) as [[??]?].
  - destruct (readRecord fpr r) as [[??]?]. simpl. by rewrite IH.
Qed.

Lemma fprAfter_snoc (l : list RawRecord) (raw : RawRecord) (fpr : nat) :
  fprAfter fpr (l ++ [raw]) = (readRecord (fprAfter fpr l) raw).2.
Proof. revert fpr. induction l as [|r l IH]; intros fpr; simpl; [done|apply IH]. Qed.

Lemma readAll_length (l : list RawRecord) (fpr : nat) :
  length (readAll fpr l) = length l.
Proof.
  revert fpr. induction l as [|r l IH]; intros fpr; simpl; [done|].
  destruct (readRecord fpr r) as [[??]?]. simpl. by rewrite IH.
Qed.

Lemma readLoop_snoc (l : list RawRecord) (raw : RawRecord) (fpr : nat) (st : LoopState) :
  readLoop fpr st (l ++ [raw]) =
    match readLoop fpr st l with
    | None => None
    | Some st' =>
        iteration st' (readRecord (fprAfter fpr l) raw).1.1 (readRecord (fprAfter fpr l) raw).1.2
    end.
Proof.
  revert fpr st. induction l as [|r l IH]; intros fpr st; simpl.
  - destruct (readRecord fpr raw) as [[record err] fpr']. simpl.
    by destruct (iteration st record err).
  - destruct (readRecord fpr r) as [[record err] fpr']. simpl.
    destruct (iteration st record err); [apply IH|done].
Qed.

(** A record read without error has the length that [FieldsPerRecord] has
    after the read, and that length is not zero. *)
Lemma readRecord_nil_err (fpr fpr' : nat) (raw : RawRecord) (record : list string) :
  readRecord fpr raw = (record, None, fpr') →
  fpr' = length record ∧ (0 < length record)%nat.
Proof.
  unfold readRecord. destruct raw as [n f fs|partial e]; simpl.
  - case_bool_decide; [case_bool_decide|]; intros; simplify_eq; simpl in *; lia.
  - case_bool_decide; intros; simplify_eq.
Qed.

Lemma readRecord_keeps_fpr (fpr : nat) (raw : RawRecord) :
  (0 < fpr)%nat → (readRecord fpr raw).2 = fpr.
Proof.
  intros Hpos. unfold readRecord. rewrite bool_decide_true by done.
  destruct (rawErr raw); [done|]. by case_bool_decide.
Qed.

Lemma headerRow_snoc (reads : Reads) (rd : list string * option ParseError) :
  headerRow (reads ++ [rd]) =
    match headerRow reads with
    | Some hrow => Some hrow
    | None => match rd.2 with None => Some rd.1 | Some _ => None end
    end.
Proof.
  induction reads as [|[record [e|]] reads IH]; simpl; [|done..].
  by destruct rd as [record [e|]].
Qed.

Lemma headerPos_snoc (reads : Reads) (rd : list string * option ParseError) :
  headerPos (reads ++ [rd]) =
    match headerPos reads with
    | Some p => Some p
    | None => match rd.2 with None => Some (length reads) | Some _ => None end
    end.
Proof.
  induction reads as [|[record [e|]] reads IH]; simpl.
  - by destruct rd as [record [e|]].
  - rewrite IH. destruct (headerPos reads); [done|]. by destruct rd.2.
  - done.
Qed.

Lemma headerPos_lt (reads : Reads) (p : nat) :
  headerPos reads = Some p → (p < length reads)%nat.
Proof.
  revert p. induction reads as [|[record [e|]] reads IH]; intros p; simpl; [done|..].
  - destruct (headerPos reads) as [q|]; [|done]. intros [= <-].
    specialize (IH _ eq_refl). lia.
  - intros [= <-]. lia.
Qed.

Lemma headerPos_headerRow (reads : Reads) :
  headerPos reads = None ↔ headerRow reads = None.
Proof.
  induction reads as [|[record [e|]] reads IH]; simpl; [done|..].
  - rewrite <- IH. by destruct (headerPos reads).
  - done.
Qed.

(** Once the header line is read, [FieldsPerRecord] is its length. *)
Lemma reader_invariant (input : list RawRecord) (hrow : list string) :
  headerRow (readAll 0 input) = Some hrow →
  fprAfter 0 input = length hrow ∧ (0 < length hrow)%nat.
Proof.
  revert hrow. induction input as [|raw l IH] using rev_ind; intros hrow; [done|].
  rewrite readAll_snoc, headerRow_snoc, fprAfter_snoc.
  destruct (headerRow (readAll 0 l)) as [hrow'|].
  - intros [= <-]. destruct (IH _ eq_refl) as [Hfpr Hpos].
    rewrite readRecord_keeps_fpr; lia.
  - destruct (readRecord (fprAfter 0 l) raw) as [[record [e|]] fpr'] eqn:Hrd; simpl; [done|].
    intros [= <-]. by apply readRecord_nil_err in Hrd.
Qed.

(** The report after one more read. *)
Lemma reportRows_snoc (reads : Reads) (rd : list string * option ParseError) :
  reportRows (reads ++ [rd]) =
    (reportRows reads ++
      match rd.2 with
      | Some e => [errRow (Z.of_nat (length reads) + 1) (CSVError e)]
      | None =>
          match headerRow reads with
          | None => []
          | Some hrow =>
              match validateRow (mkHeader hrow) rd.1 with
              | Fail e => [errRow (Z.of_nat (length reads) + 1) e]
              | _ => []
              end
          end
      end)%list.
Proof.
  unfold reportRows. rewrite imap_app, omap_app. f_equal.
  - f_equal. apply imap_ext. intros k x Hk. unfold lineError.
    rewrite take_app_le; [done|]. apply lookup_lt_Some in Hk. lia.
  - simpl. unfold lineError. rewrite Nat.add_0_r, take_app_length.
    destruct rd.2; [done|]. destruct (headerRow reads); [|done].
    by destruct (validateRow _ _).
Qed.


(** ** The loop *)

(** The loop never panics, and its final state is determined by the
    sequence of reads: the line counter, the Header Map, the error list and
    the number of records. *)
Lemma readLoop_spec (input : list RawRecord) :
  ∃ st, readLoop 0 initState input = Some st
    ∧ line st = (Z.of_nat (length input) + 1)%Z
    ∧ header st = mkHeader <$> headerRow (readAll 0 input)
    ∧ errs st = ["LINE_NUM"; "ERROR_MSG"] :: reportRows (readAll 0 input)
    ∧ length (records st) + length (reportRows (readAll 0 input))
        + match headerRow (readAll 0 input) with Some _ => 1 | None => 0 end
        = length input.
Proof.
  induction input as [|raw l IH] using rev_ind.
  { by exists initState. }
  destruct IH as (st & Hloop & Hline & Hhdr & Herrs & Hcount).
  rewrite readLoop_snoc, Hloop, readAll_snoc, headerRow_snoc, reportRows_snoc.
  rewrite readAll_length, !length_app. simpl.
  destruct (readRecord (fprAfter 0 l) raw) as [[record [e|]] fpr'] eqn:Hrd; simpl.
  - eexists. split; [done|]. simpl. rewrite Herrs, Hline, Hhdr.
    split_and!; [lia|by destruct (headerRow _)|done|].
    destruct (headerRow _); lia.
  - rewrite Hhdr. destruct (headerRow (readAll 0 l)) as [hrow|] eqn:Hrow; simpl.
    + destruct (reader_invariant _ _ Hrow) as [Hfpr Hpos].
      pose proof (readRecord_keeps_fpr (fprAfter 0 l) raw ltac:(lia)) as Hkeep.
      rewrite Hrd in Hkeep. simpl in Hkeep.
      apply readRecord_nil_err in Hrd as [Hlen _].
      assert (inBounds (mkHeader hrow) record) as Hb.
      { intros name id Hl. apply mkHeader_lookup_lt in Hl. lia. }
      pose proof (validateRow_no_panic _ _ Hb) as Hnp.
      destruct (validateRow (mkHeader hrow) record) as [rec|e|]; [| |done].
      * eexists. split; [done|]. simpl. rewrite Herrs, Hline, app_nil_r.
        split_and!; [lia|done|done|]. rewrite length_app. simpl. lia.
      * eexists. split; [done|]. simpl. rewrite Herrs, Hline.
        split_and!; [lia|done|done|]. simpl. lia.
    + eexists. split; [done|]. simpl. rewrite Herrs, Hline, app_nil_r.
      split_and!; [lia|done|done|lia].
Qed.

(** ** The claims *)

(** A record read without error once the Header Map exists has the length
    of the header line, so every index of the map is a position in it. *)
Lemma data_row_inBounds (pre : list RawRecord) (raw : RawRecord) (st : LoopState)
    (h : gmap string nat) (record : list string) (fpr' : nat) :
  readLoop 0 initState pre = Some st →
  header st = Some h →
  readRecord (fprAfter 0 pre) raw = (record, None, fpr') →
  inBounds h record.
Proof.
  intros Hloop Hhdr Hrd.
  destruct (readLoop_spec pre) as (st' & Hloop' & _ & Hhdr' & _).
  rewrite Hloop in Hloop'. injection Hloop' as <-.
  rewrite Hhdr in Hhdr'.
  destruct (headerRow (readAll 0 pre)) as [hrow|] eqn:Hrow; [|done].
  injection Hhdr' as ->.
  destruct (reader_invariant _ _ Hrow) as [Hfpr Hpos].
  pose proof (readRecord_keeps_fpr (fprAfter 0 pre) raw ltac:(lia)) as Hkeep.
  rewrite Hrd in Hkeep. simpl in Hkeep.
  apply readRecord_nil_err in Hrd as [Hlen _].
  intros name id Hl. apply mkHeader_lookup_lt in Hl. lia.
Qed.

(** A data row (a record read without error once the Header Map exists)
    goes through the checks of [validateRow] in their order: the error of
    the first one it fails becomes the one row added to the error list, and
    a row that fails none adds one Record. *)
Lemma data_row_checks (pre : list RawRecord) (raw : RawRecord) (st : LoopState)
    (h : gmap string nat) (record : list string) (fpr' : nat) :
  readLoop 0 initState pre = Some st →
  header st = Some h →
  readRecord (fprAfter 0 pre) raw = (record, None, fpr') →
  readLoop 0 initState (pre ++ [raw]) =
    Some (nextLine
      match firstViolation checks h record with
      | Some e =>
          mkLoopState (records st) (errs st ++ [errRow (line st) e]) (Some h) (line st)
      | None =>
          mkLoopState (records st ++ [recordOf h record]) (errs st) (Some h) (line st)
      end).
Proof.
  intros Hloop Hhdr Hrd.
  pose proof (data_row_inBounds _ _ _ _ _ _ Hloop Hhdr Hrd) as Hb.
  rewrite readLoop_snoc, Hloop, Hrd. cbn [fst snd].
  unfold iteration, errFunc. rewrite Hhdr, validateRow_rules by done.
  by destruct (firstViolation _ _ _).
Qed.

(** C7.  At every pass of the loop that validates a data row which passes
    the field-count check, every index stored in the Header Map is below
    the length of the row, whatever the header line contains (duplicate
    names included), so no index expression of the validation is out of
    range. *)
Theorem C7_indices_in_range (pre : list RawRecord) (raw : RawRecord) (st : LoopState)
    (h : gmap string nat) (record : list string) (fpr' : nat) :
  readLoop 0 initState pre = Some st →
  header st = Some h →
  readRecord (fprAfter 0 pre) raw = (record, None, fpr') →
  length record = size h →
  (∀ name id, h !! name = Some id → id < length record)
  ∧ validateRow h record ≠ Panic.
Proof.
  intros Hloop Hhdr Hrd _.
  pose proof (data_row_inBounds _ _ _ _ _ _ Hloop Hhdr Hrd) as Hb.
  split; [exact Hb|by apply validateRow_no_panic].
Qed.

Lemma stdHeader_lookup :
  size stdHeader = 5 ∧ stdHeader !! ID = Some 0 ∧ stdHeader !! FName = Some 1
  ∧ stdHeader !! MName = Some 2 ∧ stdHeader !! LName = Some 3
  ∧ stdHeader !! Phone = Some 4.
Proof. by vm_compute. Qed.

(** C3.  The internal id is checked for a length of exactly 8 bytes, then
    parsed, then checked for its sign, in that order: for every id string
    in an otherwise valid row the outcome is the length error, else the
    parse error, else the negative-id error, else a Record with the parsed
    id.  On the five strings of the claim: 12345678 is accepted with id
    12345678; 1234567 gives the length error; -1234567 has length 8, parses
    to a negative integer and gives the negative-id error; -0000001 parses to
    -1 and gives the negative-id error; +1234567 parses to 1234567 and is
    accepted. *)
Theorem C3_internal_id_checks :
  (∀ s : string,
     validateRow stdHeader [s; "Jane"; "Q"; "Doe"; "555-123-4567"] =
       if bool_decide (String.length s ≠ 8) then Fail (ErrIDLength s)
       else match Atoi s with
            | inr e => Fail (ErrIDInvalid s e)
            | inl n =>
                if bool_decide (n < 0)%Z then Fail (ErrIDNegative n)
                else Ok (mkRec n (mkName "Jane" "Q" "Doe") "555-123-4567")
            end)
  ∧ validateRow stdHeader ["12345678"; "Jane"; "Q"; "Doe"; "555-123-4567"]
      = Ok (mkRec 12345678 (mkName "Jane" "Q" "Doe") "555-123-4567")
  ∧ validateRow stdHeader ["1234567"; "Jane"; "Q"; "Doe"; "555-123-4567"]
      = Fail (ErrIDLength "1234567")
  ∧ (String.length "-1234567" = 8 ∧ Atoi "-1234567" = inl (-1234567)%Z
     ∧ validateRow stdHeader ["-1234567"; "Jane"; "Q"; "Doe"; "555-123-4567"]
         = Fail (ErrIDNegative (-1234567)))
  ∧ (Atoi "-0000001" = inl (-1)%Z
     ∧ validateRow stdHeader ["-0000001"; "Jane"; "Q"; "Doe"; "555-123-4567"]
         = Fail (ErrIDNegative (-1)))
  ∧ (Atoi "+1234567" = inl 1234567%Z
     ∧ validateRow stdHeader ["+1234567"; "Jane"; "Q"; "Doe"; "555-123-4567"]
         = Ok (mkRec 1234567 (mkName "Jane" "Q" "Doe") "555-123-4567")).
Proof.
  split; [|split_and!; by vm_compute].
  intros s. unfold validateRow.
  destruct stdHeader_lookup as (-> & -> & -> & -> & -> & ->). simpl.
  case_bool_decide; [done|].
  destruct (Atoi s) as [n|e]; [|done].
  by case_bool_decide.
Qed.

(** C8.  A path whose extension, lower-cased, is not [.csv] makes
    [processFile] return nil without any call that writes or removes a
    file. *)
Theorem C8_other_extension_ignored (os : OS) (path : string) :
  ToLower (Ext path) ≠ ".csv" →
  processFile os path = ([], Return None).
Proof. intros Hext. unfold processFile. by rewrite bool_decide_false. Qed.

(** What [processFile] does once the file is open and read. *)
Lemma processFile_csv (os : OS) (path : string) (input : list RawRecord) :
  ToLower (Ext path) = ".csv" →
  os_Open os path = inl input →
  ∃ st, readLoop 0 initState input = Some st ∧
    processFile os path =
      let data := MarshalIndent (records st) in
      let out := Join outputDir (TrimSuffix (Base path) (Ext path) +:+ "." +:+ "json") in
      let errName := Join errorDir (Base path) in
      match ioutil_WriteFile os out data with
      | Some err => ([WriteFile out data], Return (Some err))
      | None =>
          if bool_decide (1 < length (errs st)) then
            match os_OpenFile os errName with
            | Some err => ([WriteFile out data; OpenFile errName], Exit)
            | None =>
                match csv_WriteAll os errName (errs st) with
                | Some err =>
                    ([WriteFile out data; OpenFile errName; WriteAll errName (errs st)], Exit)
                | None =>
                    removeStep os path
                      [WriteFile out data; OpenFile errName; WriteAll errName (errs st)]
                end
            end
          else removeStep os path [WriteFile out data]
      end.
Proof.
  intros Hext Hopen. destruct (readLoop_spec input) as (st & Hloop & _).
  exists st. split; [done|].
  unfold processFile. by rewrite bool_decide_true, Hopen, Hloop.
Qed.

(** C9.  Two runs of [processFile] on files with the same content (the
    records the csv reader splits the bytes into), under any paths and any
    answers of the operating system to the later calls, pass the same data
    to [ioutil.WriteFile], once each. *)
Theorem C9_json_depends_on_content_only (os1 os2 : OS) (path1 path2 : string)
    (input : list RawRecord) :
  ToLower (Ext path1) = ".csv" → ToLower (Ext path2) = ".csv" →
  os_Open os1 path1 = inl input → os_Open os2 path2 = inl input →
  ∃ data, jsonWritten (processFile os1 path1).1 = [data]
        ∧ jsonWritten (processFile os2 path2).1 = [data].
Proof.
  intros Hext1 Hext2 Hopen1 Hopen2.
  destruct (processFile_csv os1 path1 input Hext1 Hopen1) as (st1 & Hloop1 & ->).
  destruct (processFile_csv os2 path2 input Hext2 Hopen2) as (st2 & Hloop2 & ->).
  rewrite Hloop1 in Hloop2. injection Hloop2 as <-.
  exists (MarshalIndent (records st1)). unfold removeStep. simpl.
  split; repeat case_match; done.
Qed.


Lemma reportRows_elem (reads : Reads) (row : list string) :
  row ∈ reportRows reads ↔
  ∃ k rd e, reads !! k = Some rd ∧ lineError reads k rd = Some e
            ∧ row = [pretty (Z.of_nat k + 1)%Z; Error e].
Proof.
  unfold reportRows. rewrite list_elem_of_omap. split.
  - intros (o & Hin & Ho). apply elem_of_lookup_imap in Hin as (k & rd & -> & Hk).
    simpl in Ho. destruct (lineError reads k rd) as [e|] eqn:He; [|done].
    simpl in Ho. injection Ho as <-. by exists k, rd, e.
  - intros (k & rd & e & Hk & He & ->).
    exists (Some (errRow (Z.of_nat k + 1) e)). split; [|done].
    apply elem_of_lookup_imap. exists k, rd. by rewrite He.
Qed.

(** The error list at the end of the loop is the row
    [LINE_NUM, ERROR_MSG] followed, in the order of the reads, by one row
    per read that failed; the row of the read at position [k] (counted from
    0, the header line included) carries the number [k + 1], whatever the
    line of the file on which the record stands.  The report is passed to
    [WriteAll] only when there is at least one such row, under the name of
    the input file in the error directory, and it is passed whenever there
    is one and the calls before it succeed. *)
Lemma error_report_by_reads (os : OS) (path : string) (input : list RawRecord) :
  ToLower (Ext path) = ".csv" →
  os_Open os path = inl input →
  let reads := readAll 0 input in
  let report := ["LINE_NUM"; "ERROR_MSG"] :: reportRows reads in
  (∃ st, readLoop 0 initState input = Some st ∧ errs st = report)
  ∧ (∀ row, row ∈ reportRows reads ↔
       ∃ k rd e, reads !! k = Some rd ∧ lineError reads k rd = Some e
                 ∧ row = [pretty (Z.of_nat k + 1)%Z; Error e])
  ∧ (∀ name rows, WriteAll name rows ∈ (processFile os path).1 →
       reportRows reads ≠ [] ∧ name = Join errorDir (Base path) ∧ rows = report)
  ∧ (reportRows reads ≠ [] →
     (∀ name data, ioutil_WriteFile os name data = None) →
     (∀ name, os_OpenFile os name = None) →
     WriteAll (Join errorDir (Base path)) report ∈ (processFile os path).1).
Proof.
  intros Hext Hopen reads report.
  destruct (processFile_csv os path input Hext Hopen) as (st & Hloop & ->).
  destruct (readLoop_spec input) as (st' & Hloop' & _ & _ & Herrs & _).
  rewrite Hloop in Hloop'. injection Hloop' as <-.
  fold reads in Herrs. fold report in Herrs. rewrite Herrs.
  assert (1 < length report ↔ reportRows reads ≠ []) as Hne.
  { unfold report. simpl. destruct (reportRows reads); simpl; split; (done || lia). }
  destruct Hne as [Hne1 Hne2].
  split_and!.
  - by exists st.
  - apply reportRows_elem.
  - intros name rows. simpl. unfold removeStep.
    repeat case_match; simpl; intros Hin;
      repeat (apply elem_of_cons in Hin as [Hin|Hin]; [try done|]);
      try (by apply elem_of_nil in Hin);
      simplify_eq; split_and!; try done; apply Hne1; by eapply bool_decide_eq_true_1.
  - intros Hrows Hjson Hfile. simpl. rewrite Hjson, Hfile.
    rewrite bool_decide_true by auto.
    unfold removeStep. repeat case_match; simpl; set_solver.
Qed.

(** C10 (amended).  Every read contributes exactly one thing, except the
    header line, which contributes nothing: a read made once the Header Map
    exists, or a malformed read made before, appends either one Record or
    one error row, never both and never neither.  At the end of the input
    the number of Records plus the number of error rows (the row
    [LINE_NUM, ERROR_MSG] not counted) is the number of lines read after the
    header line plus the number of lines read before it. *)
Theorem C10_lines_accounted_for (input : list RawRecord) (raw : RawRecord) :
  let reads := readAll 0 input in
  let rd := (readRecord (fprAfter 0 input) raw).1 in
  ∃ st st',
    readLoop 0 initState input = Some st
    ∧ readLoop 0 initState (input ++ [raw]) = Some st'
    ∧ length (records st) + (length (errs st) - 1)
        = linesAfterHeader reads + linesBeforeHeader reads
    ∧ match header st, rd.2 with
      | None, None => records st' = records st ∧ errs st' = errs st
      | _, _ =>
          (∃ r, records st' = records st ++ [r] ∧ errs st' = errs st)
          ∨ (∃ row, records st' = records st ∧ errs st' = errs st ++ [row])
      end.
Proof.
  intros reads rd.
  destruct (readLoop_spec input) as (st & Hloop & _ & _ & Herrs & Hcount).
  destruct (readLoop_spec (input ++ [raw])) as (st' & Hloop' & _).
  exists st, st'. split_and!; [done..| |].
  - rewrite Herrs. simpl. rewrite Nat.sub_0_r.
    unfold linesAfterHeader, linesBeforeHeader. fold reads in Hcount |- *.
    pose proof (headerPos_headerRow reads) as Hiff.
    pose proof (headerPos_lt reads) as Hlt.
    pose proof (readAll_length input 0) as Hlen. fold reads in Hlen.
    destruct (headerPos reads) as [p|].
    + specialize (Hlt _ eq_refl).
      destruct (headerRow reads); [lia|]. by destruct Hiff as [_ Hiff]; specialize (Hiff eq_refl).
    + destruct Hiff as [Hiff _]. rewrite (Hiff eq_refl) in Hcount. lia.
  - rewrite readLoop_snoc, Hloop in Hloop'. fold rd in Hloop'.
    unfold iteration, errFunc, nextLine in Hloop'.
    destruct rd.2 as [e|].
    + injection Hloop' as <-. simpl. destruct (header st); right; by eexists.
    + destruct (header st) as [h|]; [|by injection Hloop' as <-].
      destruct (validateRow h rd.1) as [r|e|]; [| |done]; injection Hloop' as <-; simpl.
      * left. by eexists.
      * right. by eexists.
Qed.

(** ** The count check and the header line

    The Header Map has one entry per distinct name of the header line. *)

Lemma rangeInsert_dom (record : list string) (i : nat) (h : gmap string nat) :
  dom (rangeInsert i record h) = list_to_set record ∪ dom h.
Proof.
  revert i h. induction record as [|val rest IH]; intros i h; simpl.
  - by rewrite (left_id_L ∅ (∪)).
  - rewrite IH, dom_insert_L, (assoc_L (∪)).
    by rewrite (comm_L (∪) (list_to_set rest) {[val]}).
Qed.

Lemma mkHeader_size (record : list string) :
  size (mkHeader record) = size (list_to_set record : gset string).
Proof.
  unfold mkHeader. rewrite <- size_dom, rangeInsert_dom, dom_empty_L.
  by rewrite (right_id_L ∅ (∪)).
Qed.

Lemma mkHeader_size_NoDup (record : list string) :
  NoDup record → size (mkHeader record) = length record.
Proof. intros Hnd. rewrite mkHeader_size. by apply size_list_to_set. Qed.

(** The check itself: a row whose length differs from the number of entries
    of the Header Map gets the count error. *)
Lemma count_check (h : gmap string nat) (record : list string) :
  length record ≠ size h →
  validateRow h record = Fail (ErrNumFields (length record) (size h)).
Proof. intros Hne. unfold validateRow. by rewrite bool_decide_true. Qed.

(** A line whose number of fields differs from that of the header line
    does not reach the check: the reader reports it. *)
Lemma mismatch_is_reader_error (pre : list RawRecord) (hrow : list string)
    (n : Z) (f : string) (fs : list string) :
  headerRow (readAll 0 pre) = Some hrow →
  length (f :: fs) ≠ length hrow →
  readRecord (fprAfter 0 pre) (Parsed n f fs) =
    (f :: fs, Some (mkParseError n n 0 ErrFieldCount), length hrow).
Proof.
  intros Hrow Hne. destruct (reader_invariant _ _ Hrow) as [-> Hpos].
  unfold readRecord. cbn [rawFields rawErr rawLine].
  by rewrite !bool_decide_true.
Qed.

(** ** The JSON file when no row is valid *)

Lemma no_record_writes_null (os : OS) (path : string) (input : list RawRecord)
    (st : LoopState) :
  ToLower (Ext path) = ".csv" →
  os_Open os path = inl input →
  readLoop 0 initState input = Some st →
  records st = [] →
  jsonWritten (processFile os path).1 = ["null"].
Proof.
  intros Hext Hopen Hloop Hrecs.
  destruct (processFile_csv os path input Hext Hopen) as (st' & Hloop' & ->).
  rewrite Hloop in Hloop'. injection Hloop' as <-.
  rewrite Hrecs. unfold removeStep. simpl.
  repeat case_match; done.
Qed.

(** ** File-level failures

    A failed write of the JSON file and a failed removal are returned to
    the caller; a failed opening of the error file ends the process. *)

Lemma write_failure_returned (os : OS) (path : string) (input : list RawRecord)
    (err : error) :
  ToLower (Ext path) = ".csv" →
  os_Open os path = inl input →
  (∀ name data, ioutil_WriteFile os name data = Some err) →
  (processFile os path).2 = Return (Some err).
Proof.
  intros Hext Hopen Hwrite.
  destruct (processFile_csv os path input Hext Hopen) as (st & _ & ->).
  simpl. by rewrite Hwrite.
Qed.

Lemma remove_failure_returned (os : OS) (path : string) (input : list RawRecord)
    (err : error) :
  ToLower (Ext path) = ".csv" →
  os_Open os path = inl input →
  (∀ name data, ioutil_WriteFile os name data = None) →
  (∀ name, os_OpenFile os name = None) →
  (∀ name rows, csv_WriteAll os name rows = None) →
  os_Remove os path = Some err →
  (processFile os path).2 = Return (Some err).
Proof.
  intros Hext Hopen Hwrite Hfile Hall Hrm.
  destruct (processFile_csv os path input Hext Hopen) as (st & _ & ->).
  simpl. rewrite Hwrite, Hfile, Hall. unfold removeStep. rewrite Hrm.
  by case_bool_decide.
Qed.

Lemma report_failure_exits (os : OS) (path : string) (input : list RawRecord)
    (err : error) :
  ToLower (Ext path) = ".csv" →
  os_Open os path = inl input →
  (∀ name data, ioutil_WriteFile os name data = None) →
  (∀ name, os_OpenFile os name = Some err) →
  reportRows (readAll 0 input) ≠ [] →
  (processFile os path).2 = Exit.
Proof.
  intros Hext Hopen Hwrite Hfile Hrows.
  destruct (processFile_csv os path input Hext Hopen) as (st & Hloop & ->).
  destruct (readLoop_spec input) as (st' & Hloop' & _ & _ & Herrs & _).
  rewrite Hloop in Hloop'. injection Hloop' as <-.
  simpl. rewrite Hwrite, Hfile, Herrs.
  rewrite bool_decide_true; [done|].
  simpl. destruct (reportRows (readAll 0 input)); [done|simpl; lia].
Qed.


(** ** More on the Header Map *)

Lemma rangeInsert_lastIndex (record : list string) (i : nat) (h : gmap string nat)
    (name : string) :
  rangeInsert i record h !! name =
    match lastIndex name record with
    | Some k => Some (i + k)
    | None => h !! name
    end.
Proof.
  revert i h. induction record as [|val rest IH]; intros i h; simpl; [done|].
  rewrite IH. destruct (lastIndex name rest) as [k|].
  - f_equal. lia.
  - rewrite lookup_insert. destruct (decide (val = name)); [|done].
    f_equal. lia.
Qed.

Lemma lastIndex_None (record : list string) (name : string) :
  lastIndex name record = None ↔ name ∉ record.
Proof.
  induction record as [|val rest IH]; simpl.
  { split; [intros _; apply not_elem_of_nil|done]. }
  rewrite not_elem_of_cons. destruct (lastIndex name rest) as [k|].
  - split; [done|]. intros [_ Hrest]. by apply IH in Hrest.
  - destruct (decide (val = name)) as [->|Hne].
    + split; [done|]. by intros [? _].
    + split; [|done]. intros _. split; [done|]. by apply IH.
Qed.

Lemma lastIndex_Some (record : list string) (name : string) (k : nat) :
  lastIndex name record = Some k ↔
  record !! k = Some name ∧ ∀ j, k < j → record !! j ≠ Some name.
Proof.
  revert k. induction record as [|val rest IH]; intros k; simpl.
  { split; [done|]. by intros [? _]. }
  destruct (lastIndex name rest) as [k'|] eqn:Hlast.
  - destruct (IH k') as [IH1 _]. destruct (IH1 eq_refl) as [Hk' Hmax].
    split.
    + intros [= <-]. split; [done|]. intros [|j] Hj; [lia|]. simpl. apply Hmax. lia.
    + intros [Hk Hlater]. destruct k as [|k].
      * exfalso. by apply (Hlater (S k')); [lia|].
      * f_equal. f_equal. simpl in Hk.
        destruct (decide (k = k')) as [->|Hne]; [done|]. exfalso.
        destruct (decide (k < k')).
        -- by apply (Hlater (S k')); [lia|].
        -- by apply (Hmax k); [lia|].
  - assert (∀ j, rest !! j ≠ Some name) as Hnone.
    { intros j Hj. apply lastIndex_None in Hlast. apply Hlast.
      apply list_elem_of_lookup. by exists j. }
    destruct (decide (val = name)) as [->|Hval].
    + split.
      * intros [= <-]. split; [done|]. intros [|j] Hj; [lia|]. apply Hnone.
      * intros [Hk _]. destruct k as [|k]; [done|]. by apply Hnone in Hk.
    + split; [done|]. intros [Hk _]. destruct k as [|k]; simpl in Hk.
      * by simplify_eq.
      * by apply Hnone in Hk.
Qed.

Lemma mkHeader_lookup_Some (record : list string) (name : string) (id : nat) :
  mkHeader record !! name = Some id ↔
  record !! id = Some name ∧ ∀ j, id < j → record !! j ≠ Some name.
Proof.
  unfold mkHeader. rewrite rangeInsert_lastIndex, <- lastIndex_Some.
  by destruct (lastIndex name record).
Qed.

Lemma mkHeader_lookup_None (record : list string) (name : string) :
  mkHeader record !! name = None ↔ name ∉ record.
Proof.
  unfold mkHeader. rewrite rangeInsert_lastIndex, <- lastIndex_None, lookup_empty.
  by destruct (lastIndex name record).
Qed.

(** X1.  The Header Map sends a name to the position of its last
    occurrence in the header line, and has no entry for a name that does not
    occur in it. *)
Theorem X1_header_map_last_occurrence (record : list string) (name : string) :
  (∀ id, mkHeader record !! name = Some id ↔
         record !! id = Some name ∧ ∀ j, id < j → record !! j ≠ Some name)
  ∧ (mkHeader record !! name = None ↔ name ∉ record).
Proof.
  split; [intros id; apply mkHeader_lookup_Some|apply mkHeader_lookup_None].
Qed.

(** ** What an accepted row looks like *)

Lemma atoiDigits_bound (s : string) (n m : Z) :
  (0 ≤ n)%Z → atoiDigits n s = Some m →
  (n * 10 ^ Z.of_nat (String.length s) ≤ m
   < (n + 1) * 10 ^ Z.of_nat (String.length s))%Z.
Proof.
  revert n. induction s as [|ch s IH]; intros n Hn; simpl atoiDigits.
  - intros [= <-]. simpl. lia.
  - case_bool_decide as Hd; [|done]. intros Hm.
    apply IH in Hm; [|lia].
    change (String.length (String ch s)) with (S (String.length s)).
    rewrite Nat2Z.inj_succ, Z.pow_succ_r by lia.
    assert (0 < 10 ^ Z.of_nat (String.length s))%Z by (apply Z.pow_pos_nonneg; lia).
    nia.
Qed.

Lemma Atoi_8_bound (s : string) (n : Z) :
  String.length s = 8 → Atoi s = inl n → (-100000000 < n < 100000000)%Z.
Proof.
  intros Hlen. unfold Atoi. rewrite Hlen. simpl.
  destruct s as [|c rest]; [done|]. simpl in Hlen.
  case_bool_decide; [done|].
  destruct (atoiDigits 0 (if isSign c then rest else String c rest)) as [m|] eqn:Hm; [|done].
  apply atoiDigits_bound in Hm; [|lia].
  assert (0 ≤ m < 100000000)%Z as Hb.
  { destruct (isSign c); simpl in Hm.
    - replace (String.length rest) with 7 in Hm by lia. simpl in Hm. lia.
    - replace (String.length rest) with 7 in Hm by lia. simpl in Hm. lia. }
  intros [= <-]. case_bool_decide; lia.
Qed.

Lemma inCls_Hyphen (c : ascii) : inCls Hyphen c = true → c = "-"%char.
Proof.
  unfold inCls, byteOf. intros Hc%bool_decide_eq_true_1.
  rewrite <- (ascii_nat_embedding c).
  by replace (nat_of_ascii c) with 45 by lia.
Qed.

Lemma phone_shape (s : string) :
  phoneRegexp_MatchString s = true →
  String.length s = 12 ∧ String.get 3 s = Some "-"%char ∧ String.get 7 s = Some "-"%char.
Proof.
  unfold phoneRegexp_MatchString, phonePattern.
  do 12 (destruct s as [|? s]; [simpl; by rewrite ?andb_false_r|]).
  destruct s; simpl; [|by rewrite !andb_false_r].
  rewrite !andb_true_iff. intros (_ & _ & _ & H3 & _ & _ & _ & H7 & _).
  apply inCls_Hyphen in H3 as ->. apply inCls_Hyphen in H7 as ->. done.
Qed.

Ltac inv_validate H :=
  match type of H with
  | (if bool_decide ?P then _ else _) = _ =>
      destruct (decide P);
        [rewrite bool_decide_true in H by done; discriminate H
        |rewrite bool_decide_false in H by done]
  | (if negb ?b then _ else _) = _ => destruct b eqn:?; simpl in H; [|discriminate H]
  | match ?x with _ => _ end = _ => destruct x eqn:?; try discriminate H
  | mbind _ (index _ _) = _ => unfold index in H
  | mbind _ (match ?y with _ => _ end) = _ =>
      destruct y eqn:?; simpl in H; [|discriminate H]
  end.

(** An accepted row has the five required columns, and the Record built
    from it is well formed. *)
Lemma validateRow_Ok (h : gmap string nat) (record : list string) (rec : Rec) :
  validateRow h record = Ok rec →
  wellFormed rec ∧ length record = size h ∧ Forall (λ name, is_Some (h !! name)) required.
Proof.
  intros Hv. unfold validateRow in Hv. repeat inv_validate Hv.
  injection Hv as <-. unfold wellFormed. simpl.
  match goal with H : Atoi _ = inl _ |- _ => apply Atoi_8_bound in H; [|lia] end.
  match goal with H : phoneRegexp_MatchString _ = true |- _ =>
    pose proof (phone_shape _ H) as (? & ? & ?) end.
  assert (∀ s : string, s ≠ "" → 1 ≤ String.length s) as Hne.
  { intros [|? ?] ?; simpl; [done|lia]. }
  split_and!; try done; try lia; try (by apply Hne).
  repeat constructor; by eexists.
Qed.

(** Every Record of the final state was accepted by [validateRow] under
    the Header Map of the header line. *)
Lemma records_Forall (P : Rec → Prop) (input : list RawRecord) (st : LoopState) :
  readLoop 0 initState input = Some st →
  (∀ hrow record rec,
     headerRow (readAll 0 input) = Some hrow →
     validateRow (mkHeader hrow) record = Ok rec → P rec) →
  Forall P (records st).
Proof.
  revert st. induction input as [|raw l IH] using rev_ind; intros st Hloop HP.
  { injection Hloop as <-. constructor. }
  rewrite readLoop_snoc in Hloop.
  destruct (readLoop_spec l) as (st0 & Hloop0 & _ & Hhdr0 & _).
  rewrite Hloop0 in Hloop.
  assert (Forall P (records st0)) as IH0.
  { apply IH; [done|]. intros hrow record rec Hrow. apply HP.
    by rewrite readAll_snoc, headerRow_snoc, Hrow. }
  unfold iteration, errFunc, nextLine in Hloop.
  destruct (readRecord (fprAfter 0 l) raw).1.2; [by injection Hloop as <-|].
  destruct (header st0) as [h|] eqn:Hh; [|by injection Hloop as <-].
  destruct (headerRow (readAll 0 l)) as [hrow|] eqn:Hrow; [|done].
  injection Hhdr0 as ->.
  destruct (validateRow (mkHeader hrow) _) as [rec|e|] eqn:Hv; [| |done];
    injection Hloop as <-; simpl; [|done].
  apply Forall_app. split; [done|]. constructor; [|constructor].
  eapply HP; [|done]. by rewrite readAll_snoc, headerRow_snoc, Hrow.
Qed.

(** X2.  Whatever the file holds, every Record collected by the loop is
    well formed: its id lies between 0 and 99999999, its first and last
    names have 1 to 15 bytes, its middle name at most 15, and its phone
    number has twelve bytes with hyphens at positions 3 and 7. *)
Theorem X2_records_well_formed (input : list RawRecord) :
  ∃ st, readLoop 0 initState input = Some st ∧ Forall wellFormed (records st).
Proof.
  destruct (readLoop_spec input) as (st & Hloop & _).
  exists st. split; [done|].
  apply (records_Forall _ input st Hloop).
  intros hrow record rec _ Hv. by apply validateRow_Ok in Hv as [? _].
Qed.

(** X3.  When the header line lacks one of the five required names, no
    row of the file is accepted: the loop ends without a Record and with one
    error row for every line other than the header line. *)
Theorem X3_missing_column_rejects_all (input : list RawRecord) (hrow : list string)
    (name : string) :
  headerRow (readAll 0 input) = Some hrow →
  name ∈ required →
  name ∉ hrow →
  ∃ st, readLoop 0 initState input = Some st
    ∧ records st = []
    ∧ length (errs st) = length input.
Proof.
  intros Hrow Hreq Hmiss.
  destruct (readLoop_spec input) as (st & Hloop & _ & _ & Herrs & Hcount).
  exists st. split; [done|].
  assert (Forall (λ _, False) (records st)) as Hnone.
  { apply (records_Forall _ input st Hloop).
    intros hrow' record rec Hrow' Hv. rewrite Hrow in Hrow'. injection Hrow' as <-.
    apply validateRow_Ok in Hv as (_ & _ & Hall).
    rewrite Forall_forall in Hall. destruct (Hall _ Hreq) as [id Hid].
    apply mkHeader_lookup_None in Hmiss. by rewrite Hmiss in Hid. }
  assert (records st = []) as Hrecs.
  { destruct (records st); [done|]. by apply Forall_cons in Hnone as [[] _]. }
  split; [done|]. rewrite Hrecs, Hrow in Hcount. rewrite Herrs. simpl in *. lia.
Qed.

(** ** The count check on the rows the reader delivers *)

Lemma size_list_to_set_NoDup (l : list string) :
  size (list_to_set l : gset string) ≤ length l
  ∧ (size (list_to_set l : gset string) = length l → NoDup l).
Proof.
  induction l as [|x l [IHle IHeq]].
  { rewrite list_to_set_nil, size_empty. split; [done|intros _; constructor]. }
  rewrite list_to_set_cons. simpl length.
  destruct (decide (x ∈ l)) as [Hin|Hnin].
  - rewrite subseteq_union_1_L.
    + split; lia.
    + intros y Hy%elem_of_singleton. subst y. by apply elem_of_list_to_set.
  - rewrite size_union, size_singleton.
    + split; [lia|]. intros Heq. constructor; [done|]. apply IHeq. lia.
    + intros y Hy%elem_of_singleton Hy'%elem_of_list_to_set. by subst y.
Qed.

Lemma mkHeader_size_eq_NoDup (hrow : list string) :
  size (mkHeader hrow) = length hrow ↔ NoDup hrow.
Proof.
  split; [|apply mkHeader_size_NoDup].
  rewrite mkHeader_size. apply size_list_to_set_NoDup.
Qed.

(** No check after the first one produces the count error. *)
Lemma validateRow_not_count (h : gmap string nat) (record : list string) (a b : nat) :
  length record = size h → validateRow h record ≠ Fail (ErrNumFields a b).
Proof.
  intros Hlen Hv. unfold validateRow in Hv.
  rewrite bool_decide_false in Hv by (by intros ?).
  repeat inv_validate Hv. discriminate Hv.
Qed.

(** X4.  For a row that the reader delivers once the header line is read,
    the count check of [processFile] fails exactly when a name occurs twice
    in the header line; it then fails for every such row. *)
Theorem X4_count_error_iff_duplicate_names (pre : list RawRecord) (raw : RawRecord)
    (hrow record : list string) (fpr' : nat) :
  headerRow (readAll 0 pre) = Some hrow →
  readRecord (fprAfter 0 pre) raw = (record, None, fpr') →
  (∃ a b, validateRow (mkHeader hrow) record = Fail (ErrNumFields a b)) ↔ ¬ NoDup hrow.
Proof.
  intros Hrow Hrd.
  destruct (reader_invariant _ _ Hrow) as [Hfpr Hpos].
  pose proof (readRecord_keeps_fpr (fprAfter 0 pre) raw ltac:(lia)) as Hkeep.
  rewrite Hrd in Hkeep. simpl in Hkeep.
  apply readRecord_nil_err in Hrd as [Hlen _].
  assert (length record = length hrow) as Hsame by lia.
  split.
  - intros (a & b & Hv) Hnd. apply mkHeader_size_NoDup in Hnd.
    by apply (validateRow_not_count (mkHeader hrow) record a b); [lia|].
  - intros Hdup. eexists _, _. apply count_check.
    rewrite Hsame. intros Heq. apply Hdup. by apply mkHeader_size_eq_NoDup.
Qed.

(** ** Columns are found by name *)

(** The outcome of the validation depends on the row only through the
    values of the five required columns. *)
Lemma validateRow_ext (h1 h2 : gmap string nat) (row1 row2 : list string) :
  length row1 = size h1 → length row2 = size h2 →
  inBounds h1 row1 → inBounds h2 row2 →
  Forall (λ name, h1 !! name ≫= (row1 !!.) = h2 !! name ≫= (row2 !!.)) required →
  validateRow h1 row1 = validateRow h2 row2.
Proof.
  intros Hlen1 Hlen2 Hb1 Hb2 Hsame.
  assert (Forall (λ name, column h1 row1 name = column h2 row2 name
                          ∧ rulePresent name h1 row1 = rulePresent name h2 row2) required)
    as Hcols.
  { eapply Forall_impl; [exact Hsame|]. intros name Heq. cbv beta in Heq.
    unfold column, rulePresent.
    split; [by rewrite Heq|].
    destruct (h1 !! name) as [i1|] eqn:H1, (h2 !! name) as [i2|] eqn:H2; try done.
    - destruct (lookup_lt_is_Some_2 row1 i1 (Hb1 _ _ H1)) as [v Hv].
      simpl in Heq. by rewrite Hv in Heq.
    - destruct (lookup_lt_is_Some_2 row2 i2 (Hb2 _ _ H2)) as [v Hv].
      simpl in Heq. by rewrite Hv in Heq. }
  unfold required in Hcols.
  apply Forall_cons in Hcols as [[Hc1 Hp1] Hcols].
  apply Forall_cons in Hcols as [[Hc2 Hp2] Hcols].
  apply Forall_cons in Hcols as [[Hc3 Hp3] Hcols].
  apply Forall_cons in Hcols as [[Hc4 Hp4] Hcols].
  apply Forall_cons in Hcols as [[Hc5 Hp5] _].
  rewrite !validateRow_rules by done.
  unfold recordOf. cbn [firstViolation checks].
  unfold checkMapSize, checkIDBytes, ruleIDParse, ruleIDSign, checkMaxBytes,
    ruleNonEmpty, rulePhoneFormat.
  rewrite (bool_decide_false (length row1 ≠ size h1)) by (by intros ?).
  rewrite (bool_decide_false (length row2 ≠ size h2)) by (by intros ?).
  by rewrite Hc1, Hp1, Hc2, Hp2, Hc3, Hp3, Hc4, Hp4, Hc5, Hp5.
Qed.

(** With distinct names, the value found for a name is the one paired
    with it. *)
Lemma mkHeader_zip (hrow row : list string) (name : string) :
  NoDup hrow → length row = length hrow →
  mkHeader hrow !! name ≫= (row !!.)
    = (list_to_map (zip hrow row) : gmap string string) !! name.
Proof.
  intros Hnd Hlen.
  assert ((zip hrow row).*1 = hrow) as Hfst by (apply fst_zip; lia).
  destruct (mkHeader hrow !! name) as [id|] eqn:Hid; simpl.
  - apply mkHeader_lookup_Some in Hid as [Hid _].
    destruct (lookup_lt_is_Some_2 row id) as [v Hv].
    { apply lookup_lt_Some in Hid. lia. }
    rewrite Hv. symmetry. apply elem_of_list_to_map_1; [by rewrite Hfst|].
    apply list_elem_of_lookup. exists id.
    apply lookup_zip_with_Some. by exists name, v.
  - apply mkHeader_lookup_None in Hid. symmetry.
    apply not_elem_of_list_to_map_1. by rewrite Hfst.
Qed.

Lemma mkHeader_inBounds (hrow row : list string) :
  length row = length hrow → inBounds (mkHeader hrow) row.
Proof. intros Hlen name id Hl. apply mkHeader_lookup_lt in Hl. lia. Qed.

(** X5.  The order of the columns does not matter: when the names of the
    header line are distinct, moving the columns of the header line and of
    the row in the same way leaves the outcome of the validation unchanged,
    errors included. *)
Theorem X5_column_order_irrelevant (hrow1 row1 hrow2 row2 : list string) :
  NoDup hrow1 →
  length row1 = length hrow1 → length row2 = length hrow2 →
  zip hrow1 row1 ≡ₚ zip hrow2 row2 →
  validateRow (mkHeader hrow1) row1 = validateRow (mkHeader hrow2) row2.
Proof.
  intros Hnd1 Hlen1 Hlen2 Hperm.
  assert (hrow1 ≡ₚ hrow2) as Hnames.
  { rewrite <- (fst_zip hrow1 row1), <- (fst_zip hrow2 row2) by lia. by rewrite Hperm. }
  assert (NoDup hrow2) as Hnd2 by (by rewrite <- Hnames).
  apply validateRow_ext.
  - by rewrite mkHeader_size_NoDup.
  - by rewrite mkHeader_size_NoDup.
  - by apply mkHeader_inBounds.
  - by apply mkHeader_inBounds.
  - apply Forall_forall. intros name _.
    rewrite !mkHeader_zip by done. f_equal.
    apply list_to_map_proper; [|done]. rewrite fst_zip by lia. done.
Qed.

(** X6.  Columns under other names are ignored: appending columns whose
    names are new and are not among the five required ones, with any
    values, leaves the outcome of the validation unchanged. *)
Theorem X6_extra_columns_ignored (hrow row extra vals : list string) :
  NoDup (hrow ++ extra) →
  length row = length hrow → length vals = length extra →
  Forall (λ name, name ∉ extra) required →
  validateRow (mkHeader (hrow ++ extra)) (row ++ vals) = validateRow (mkHeader hrow) row.
Proof.
  intros Hnd Hlen Hlen' Hfresh.
  pose proof Hnd as (Hnd1 & _ & _)%NoDup_app.
  apply validateRow_ext.
  - rewrite mkHeader_size_NoDup by done. rewrite !length_app. lia.
  - by rewrite mkHeader_size_NoDup.
  - apply mkHeader_inBounds. rewrite !length_app. lia.
  - by apply mkHeader_inBounds.
  - eapply Forall_impl; [exact Hfresh|]. intros name Hname. simpl in Hname.
    rewrite !mkHeader_zip by (done || rewrite !length_app; lia).
    rewrite (zip_with_app pair hrow extra row vals) by lia. rewrite list_to_map_app.
    apply lookup_union_l. apply not_elem_of_list_to_map_1.
    change (zip_with pair extra vals) with (zip extra vals).
    rewrite fst_zip by lia. done.
Qed.

(** ** Which paths are processed, and under which name the JSON is written *)

Lemma string_of_list_ascii_app (a b : list ascii) :
  String.string_of_list_ascii (a ++ b)
    = String.string_of_list_ascii a +:+ String.string_of_list_ascii b.
Proof. induction a as [|c a IH]; simpl; [done|by rewrite IH]. Qed.

Lemma list_ascii_of_string_app (s t : string) :
  String.list_ascii_of_string (s +:+ t)
    = String.list_ascii_of_string s ++ String.list_ascii_of_string t.
Proof. induction s as [|c s IH]; simpl; [done|by rewrite IH]. Qed.

(** The extension is a suffix of the path. *)
Lemma extScan_suffix (rpath suffix : list ascii) :
  ∃ pre, rev rpath ++ suffix
         = pre ++ String.list_ascii_of_string (extScan rpath suffix).
Proof.
  revert suffix. induction rpath as [|c rest IH]; intros suffix; simpl.
  - exists suffix. by rewrite app_nil_r.
  - rewrite <- app_assoc. simpl.
    case_bool_decide; [exists (rev rest ++ c :: suffix); by rewrite app_nil_r|].
    case_bool_decide; [|apply IH].
    exists (rev rest). simpl. by rewrite String.list_ascii_of_string_of_list_ascii.
Qed.

Lemma byteOf_inj (c : ascii) (n : nat) :
  n < 256 → byteOf c = Z.of_nat n → c = ascii_of_nat n.
Proof.
  unfold byteOf. intros _ Hc. rewrite <- (ascii_nat_embedding c). f_equal. lia.
Qed.

(** A byte that lowers to a byte other than the dot and the slash is
    neither of the two. *)
Lemma lowerByte_plain (c x : ascii) :
  lowerByte c = x → x ≠ "."%char → x ≠ "/"%char →
  (byteOf c ≠ 47 ∧ byteOf c ≠ 46)%Z.
Proof.
  intros <- Hdot Hslash. split; intros Hc.
  - apply (byteOf_inj c 47) in Hc; [|lia]. by subst c.
  - apply (byteOf_inj c 46) in Hc; [|lia]. by subst c.
Qed.

Lemma lowerByte_dot (c : ascii) : lowerByte c = "."%char → c = "."%char.
Proof.
  unfold lowerByte. case_bool_decide as Hc; [|done].
  intros Hlow. exfalso.
  unfold byteOf in Hc. apply (f_equal nat_of_ascii) in Hlow.
  rewrite nat_ascii_embedding in Hlow by lia.
  change (nat_of_ascii ".") with 46 in Hlow. lia.
Qed.

(** X7.  [processFile] takes the branch that reads the file exactly for
    the paths that end in the four bytes [.csv], in any mix of upper and
    lower case; a dot or a slash further left plays no part. *)
Theorem X7_csv_extension (path : string) :
  ToLower (Ext path) = ".csv" ↔ ∃ pre e, path = pre +:+ e ∧ ToLower e = ".csv".
Proof.
  split.
  - intros Hext.
    destruct (extScan_suffix (rev (String.list_ascii_of_string path)) []) as [pre Hpre].
    rewrite rev_involutive, app_nil_r in Hpre. fold (Ext path) in Hpre.
    exists (String.string_of_list_ascii pre), (Ext path). split; [|done].
    rewrite <- (String.string_of_list_ascii_of_string path) at 1.
    by rewrite Hpre, string_of_list_ascii_app, String.string_of_list_ascii_of_string.
  - intros (pre & e & -> & He).
    destruct e as [|c0 [|c1 [|c2 [|c3 [|? ?]]]]]; try done.
    simpl in He. injection He as H0 H1 H2 H3.
    apply lowerByte_dot in H0 as ->.
    destruct (lowerByte_plain _ _ H1) as [? ?]; [done..|].
    destruct (lowerByte_plain _ _ H2) as [? ?]; [done..|].
    destruct (lowerByte_plain _ _ H3) as [? ?]; [done..|].
    unfold Ext. rewrite list_ascii_of_string_app. simpl.
    rewrite rev_app_distr. simpl.
    rewrite !bool_decide_false by done.
    simpl. by rewrite H1, H2, H3.
Qed.

Lemma substring_app_l (s t : string) :
  String.substring 0 (String.length s) (s +:+ t) = s.
Proof.
  induction s as [|c s IH]; simpl; [by destruct t|by rewrite IH].
Qed.

Lemma substring_all (t : string) : String.substring 0 (String.length t) t = t.
Proof. induction t as [|c t IH]; simpl; [done|by rewrite IH]. Qed.

Lemma substring_app_r (s t : string) :
  String.substring (String.length s) (String.length t) (s +:+ t) = t.
Proof. induction s as [|c s IH]; simpl; [apply substring_all|done]. Qed.

Lemma string_length_app (s t : string) :
  String.length (s +:+ t) = String.length s + String.length t.
Proof. induction s as [|c s IH]; simpl; [done|by rewrite IH]. Qed.

Lemma TrimSuffix_app (s suffix : string) : TrimSuffix (s +:+ suffix) suffix = s.
Proof.
  unfold TrimSuffix. rewrite string_length_app.
  replace (String.length s + String.length suffix - String.length suffix)
    with (String.length s) by lia.
  rewrite substring_app_r, substring_app_l.
  rewrite !bool_decide_true by (done || lia). done.
Qed.

(** X8.  When the base name of the path is a stem followed by the
    extension, the first call of [processFile] on a csv file writes to the
    stem followed by [.json] in the output directory, also when the
    extension is written in upper case. *)
Theorem X8_json_name (os : OS) (path stem : string) (input : list RawRecord) :
  ToLower (Ext path) = ".csv" →
  os_Open os path = inl input →
  Base path = stem +:+ Ext path →
  ∃ data, head (processFile os path).1
          = Some (WriteFile (Join outputDir (stem +:+ ".json")) data).
Proof.
  intros Hext Hopen Hbase.
  destruct (processFile_csv os path input Hext Hopen) as (st & _ & ->).
  rewrite Hbase, TrimSuffix_app. exists (MarshalIndent (records st)).
  unfold removeStep. simpl. by repeat case_match.
Qed.

(** ** The calls of [processFile] and their order *)

(** X9.  The input file is removed only after its outputs are written:
    when [processFile] calls [os.Remove], it is on the path it was given, the
    JSON file was written without error and, if a row failed, the error
    report was opened and written without error. *)
Theorem X9_removed_only_after_outputs (os : OS) (path p : string) :
  Remove p ∈ (processFile os path).1 →
  p = path
  ∧ ∃ input st,
      os_Open os path = inl input
      ∧ readLoop 0 initState input = Some st
      ∧ ioutil_WriteFile os
          (Join outputDir (TrimSuffix (Base path) (Ext path) +:+ "." +:+ "json"))
          (MarshalIndent (records st)) = None
      ∧ (1 < length (errs st) →
         os_OpenFile os (Join errorDir (Base path)) = None
         ∧ csv_WriteAll os (Join errorDir (Base path)) (errs st) = None).
Proof.
  destruct (decide (ToLower (Ext path) = ".csv")) as [Hext|Hext];
    [|unfold processFile; rewrite bool_decide_false by done; by intros ?%elem_of_nil].
  destruct (os_Open os path) as [input|err] eqn:Hopen.
  - destruct (processFile_csv os path input Hext Hopen) as (st & Hloop & ->).
    simpl. unfold removeStep.
    repeat case_match; simpl; intros Hin;
      repeat (apply elem_of_cons in Hin as [Hin|Hin]; [try done|]);
      try (by apply elem_of_nil in Hin);
      simplify_eq; (split; [done|]); exists input, st; split_and!; try done;
      intros ?; exfalso; by eapply bool_decide_eq_false_1.
  - unfold processFile. rewrite bool_decide_true, Hopen by done.
    by intros ?%elem_of_nil.
Qed.

(** X10.  When [processFile] returns nil on a csv path, its calls were, in
    this order: the write of the JSON file, the opening and the writing of
    the error report if and only if a row failed, and the removal of the
    input file. *)
Theorem X10_calls_on_success (os : OS) (path : string) :
  ToLower (Ext path) = ".csv" →
  (processFile os path).2 = Return None →
  ∃ input st,
    os_Open os path = inl input
    ∧ readLoop 0 initState input = Some st
    ∧ (processFile os path).1 =
        [WriteFile (Join outputDir (TrimSuffix (Base path) (Ext path) +:+ "." +:+ "json"))
                   (MarshalIndent (records st))]
        ++ (if bool_decide (reportRows (readAll 0 input) ≠ [])
            then [OpenFile (Join errorDir (Base path));
                  WriteAll (Join errorDir (Base path))
                    (["LINE_NUM"; "ERROR_MSG"] :: reportRows (readAll 0 input))]
            else [])
        ++ [Remove path].
Proof.
  intros Hext.
  destruct (os_Open os path) as [input|err] eqn:Hopen.
  - destruct (processFile_csv os path input Hext Hopen) as (st & Hloop & ->).
    destruct (readLoop_spec input) as (st' & Hloop' & _ & _ & Herrs & _).
    rewrite Hloop in Hloop'. injection Hloop' as <-.
    intros Hret. exists input, st. split_and!; [done..|].
    revert Hret. rewrite Herrs. simpl. unfold removeStep.
    destruct (reportRows (readAll 0 input)) as [|row rows] eqn:Hrows; simpl.
    + repeat case_match; simpl; intros; simplify_eq; done.
    + repeat case_match; simpl; intros; simplify_eq; done.
  - unfold processFile. by rewrite bool_decide_true, Hopen.
Qed.

(** ** The loop over the files found at start-up *)

Lemma processFiles_app (os : OS) (files1 files2 : list string) :
  processFiles os (files1 ++ files2) =
    match processFiles os files1 with
    | (evs, Running) =>
        let '(evs', p) := processFiles os files2 in (evs ++ evs', p)
    | (evs, Terminated) => (evs, Terminated)
    end.
Proof.
  induction files1 as [|f files1 IH]; simpl.
  { by destruct (processFiles os files2). }
  destruct (processFile os f) as [evs [err| |]]; [|done..].
  rewrite IH. destruct (processFiles os files1) as [evs1 [|]]; [|done].
  destruct (processFiles os files2). by rewrite app_assoc.
Qed.

Lemma processFiles_all_return (os : OS) (files : list string) :
  Forall (λ f, ∃ err, (processFile os f).2 = Return err) files →
  processFiles os files = (concat ((λ f, (processFile os f).1) <$> files), Running).
Proof.
  induction files as [|f files IH]; intros Hall; simpl; [done|].
  apply Forall_cons in Hall as [[err Hf] Hall].
  destruct (processFile os f) as [evs out]. simpl in *. subst out.
  by rewrite (IH Hall).
Qed.

(** X11.  A file whose processing returns, with or without an error, does
    not stop the loop: when every file returns, the calls made are those of
    the files one after the other, and the process goes on. *)
Theorem X11_returned_errors_do_not_stop (os : OS) (files : list string) :
  Forall (λ f, ∃ err, (processFile os f).2 = Return err) files →
  processFiles os files = (concat ((λ f, (processFile os f).1) <$> files), Running).
Proof. apply processFiles_all_return. Qed.

(** X12.  A file whose processing does not return ends the loop on the
    spot: the calls made are those of the files before it and its own, and
    no later file is touched. *)
Theorem X12_exit_stops_everything (os : OS) (before after : list string) (f : string) :
  Forall (λ f, ∃ err, (processFile os f).2 = Return err) before →
  (processFile os f).2 = Exit →
  processFiles os (before ++ f :: after) =
    (concat ((λ f, (processFile os f).1) <$> before) ++ (processFile os f).1, Terminated).
Proof.
  intros Hbefore Hf. rewrite processFiles_app.
  rewrite (processFiles_all_return os before Hbefore). simpl.
  destruct (processFile os f) as [evs out]. simpl in *. by subst out.
Qed.

(** ** Which id strings pass *)

Lemma atoiDigits_is_Some (s : string) (n : Z) :
  is_Some (atoiDigits n s) ↔ isDigits s = true.
Proof.
  revert n. induction s as [|ch s IH]; intros n; simpl.
  { split; [done|by eexists]. }
  rewrite andb_true_iff, bool_decide_eq_true.
  case_bool_decide as Hd.
  - rewrite IH. split; [intros ?; split; [lia|done]|by intros [_ ?]].
  - split; [by intros [? ?]|intros [? _]; lia].
Qed.

Lemma atoiDigits_zero (s : string) (n : Z) :
  (0 ≤ n)%Z → atoiDigits n s = Some 0%Z →
  n = 0%Z ∧ ∀ k ch, String.get k s = Some ch → ch = "0"%char.
Proof.
  revert n. induction s as [|ch s IH]; intros n Hn; simpl.
  { intros [= ->]. by split. }
  case_bool_decide as Hd; [|done]. intros Hm.
  apply IH in Hm as [Hz Hzeros]; [|lia].
  split; [lia|]. intros [|k] ch' Hget; [|by eapply Hzeros].
  injection Hget as <-. apply (byteOf_inj ch 48); lia.
Qed.

Lemma seven_zeros (r : string) :
  String.length r = 7 →
  (∀ k ch, String.get k r = Some ch → ch = "0"%char) → r = "0000000".
Proof.
  intros Hlen Hz.
  do 7 (destruct r as [|? r]; [done|]). destruct r; [|done].
  rewrite (Hz 0 _ eq_refl), (Hz 1 _ eq_refl), (Hz 2 _ eq_refl), (Hz 3 _ eq_refl),
    (Hz 4 _ eq_refl), (Hz 5 _ eq_refl), (Hz 6 _ eq_refl). done.
Qed.

(** The three id checks on a string of eight bytes. *)
Lemma Atoi_8_accepts (c : ascii) (rest : string) :
  String.length rest = 7 →
  (∃ n, Atoi (String c rest) = inl n ∧ ¬ (n < 0)%Z) ↔
    isDigits (String c rest) = true
    ∨ (c = "+"%char ∧ isDigits rest = true)
    ∨ (c = "-"%char ∧ rest = "0000000").
Proof.
  intros Hlen. unfold Atoi.
  change (String.length (String c rest)) with (S (String.length rest)).
  rewrite Hlen. simpl bool_decide. cbn [andb].
  destruct (decide (c = "-"%char)) as [->|Hminus];
    [|destruct (decide (c = "+"%char)) as [->|Hplus]].
  - cbn [isSign byteOf]. simpl. rewrite bool_decide_false by lia.
    split.
    + intros (n & Hn & Hpos). right. right. split; [done|].
      destruct (atoiDigits 0 rest) as [m|] eqn:Hm; [|done].
      injection Hn as <-.
      pose proof (atoiDigits_bound rest 0 m ltac:(lia) Hm) as Hb.
      assert (m = 0%Z) as -> by lia.
      apply atoiDigits_zero in Hm as [_ Hz]; [|lia]. by apply seven_zeros.
    + intros [Hd|[[? _]|[_ ->]]]; [done|done|].
      exists 0%Z. split; [done|lia].
  - cbn [isSign byteOf]. simpl. rewrite bool_decide_false by lia.
    split.
    + intros (n & Hn & _). right. left. split; [done|].
      apply (atoiDigits_is_Some rest 0). destruct (atoiDigits 0 rest); [by eexists|done].
    + intros [Hd|[[_ Hd]|[? _]]]; [done| |done].
      apply (atoiDigits_is_Some rest 0) in Hd as [m Hm]. rewrite Hm.
      pose proof (atoiDigits_bound rest 0 m ltac:(lia) Hm) as Hb.
      exists m. split; [done|lia].
  - assert (isSign c = false) as ->.
    { unfold isSign. apply orb_false_iff.
      split; apply bool_decide_eq_false; intros Hc.
      - apply (byteOf_inj c 45) in Hc; [done|lia].
      - apply (byteOf_inj c 43) in Hc; [done|lia]. }
    assert (byteOf c ≠ 45%Z) as Hne.
    { intros Hc. apply (byteOf_inj c 45) in Hc; [done|lia]. }
    rewrite (bool_decide_false (byteOf c = 45%Z)) by done.
    rewrite bool_decide_false by (simpl; lia).
    split.
    + intros (n & Hn & _). left.
      apply (atoiDigits_is_Some (String c rest) 0).
      destruct (atoiDigits 0 (String c rest)); [by eexists|done].
    + intros [Hd|[[? _]|[? _]]]; [|done..].
      apply (atoiDigits_is_Some (String c rest) 0) in Hd as [m Hm]. rewrite Hm.
      pose proof (atoiDigits_bound (String c rest) 0 m ltac:(lia) Hm) as Hb.
      exists m. split; [done|]. simpl in Hb. lia.
Qed.

(** X14.  In an otherwise valid row, the id column is accepted exactly
    when it is eight decimal digits, or a plus sign followed by seven
    digits, or a minus sign followed by seven zeros. *)
Theorem X14_accepted_id_strings (s : string) :
  (∃ rec, validateRow stdHeader [s; "Jane"; "Q"; "Doe"; "555-123-4567"] = Ok rec) ↔
    (String.length s = 8 ∧ isDigits s = true)
    ∨ (∃ r, s = String "+" r ∧ String.length r = 7 ∧ isDigits r = true)
    ∨ s = "-0000000".
Proof.
  assert ((∃ rec, validateRow stdHeader [s; "Jane"; "Q"; "Doe"; "555-123-4567"] = Ok rec)
          ↔ String.length s = 8 ∧ ∃ n, Atoi s = inl n ∧ ¬ (n < 0)%Z) as ->.
  { unfold validateRow.
    destruct stdHeader_lookup as (-> & -> & -> & -> & -> & ->). simpl.
    case_bool_decide as Hlen.
    { split; [by intros [? ?]|by intros [? _]]. }
    destruct (Atoi s) as [n|e].
    - case_bool_decide.
      + split; [by intros [? ?]|]. intros (_ & n' & [= <-] & ?). done.
      + split; [|by eexists]. intros _. split; [done|]. by exists n.
    - split; [by intros [? ?]|]. by intros (_ & ? & ? & _). }
  split.
  - intros [Hlen Hacc]. destruct s as [|c rest]; [done|].
    simpl in Hlen. apply Atoi_8_accepts in Hacc; [|lia].
    destruct Hacc as [Hd|[[-> Hd]|[-> ->]]].
    + left. by split.
    + right. left. exists rest. split_and!; [done|lia|done].
    + by right; right.
  - intros [[Hlen Hd]|[(r & -> & Hlen & Hd)| ->]].
    + split; [done|]. destruct s as [|c rest]; [done|]. simpl in Hlen.
      apply Atoi_8_accepts; [lia|]. by left.
    + split; [simpl; lia|]. apply Atoi_8_accepts; [done|]. right. by left.
    + split; [done|]. apply Atoi_8_accepts; [done|]. right. by right.
Qed.

(** ** Lines with another number of fields than the header line *)

(** X15.  A well-formed line that comes after the header line and does not
    have its number of fields is not validated: the reader turns it into
    its error [wrong number of fields], and the loop adds one error row with
    the position of the line and no Record. *)
Theorem X15_wrong_field_count_is_reported (pre : list RawRecord) (st : LoopState)
    (hrow : list string) (n : Z) (f : string) (fs : list string) :
  readLoop 0 initState pre = Some st →
  headerRow (readAll 0 pre) = Some hrow →
  length (f :: fs) ≠ length hrow →
  readLoop 0 initState (pre ++ [Parsed n f fs]) =
    Some (mkLoopState (records st)
            (errs st ++ [[pretty (Z.of_nat (length pre) + 1)%Z;
                          "record on line " +:+ pretty n +:+ ": wrong number of fields"]])
            (header st) (Z.of_nat (length pre) + 2)).
Proof.
  intros Hloop Hrow Hne.
  destruct (readLoop_spec pre) as (st' & Hloop' & Hline & _).
  rewrite Hloop in Hloop'. injection Hloop' as <-.
  rewrite readLoop_snoc, Hloop, (mismatch_is_reader_error pre hrow n f fs Hrow Hne).
  simpl. unfold nextLine, errFunc, errRow. simpl. rewrite Hline.
  do 2 f_equal. lia.
Qed.

(** ** The rules of section 4.2 and the code *)

(** A line with the field count of the header line is delivered as it
    is. *)
Lemma match_is_delivered (pre : list RawRecord) (hrow : list string)
    (n : Z) (f : string) (fs : list string) :
  headerRow (readAll 0 pre) = Some hrow →
  length (f :: fs) = length hrow →
  readRecord (fprAfter 0 pre) (Parsed n f fs) = (f :: fs, None, length hrow).
Proof.
  intros Hrow Heq. destruct (reader_invariant _ _ Hrow) as [-> Hpos].
  unfold readRecord. cbn [rawFields rawErr rawLine].
  rewrite bool_decide_true by done. by rewrite bool_decide_false by (by intros ?).
Qed.

(** Under a header line with distinct names and for a row of its length,
    the checks of the code are the rules with lengths in bytes. *)
Lemma checks_byteRules (hrow row : list string) (n : Z) :
  NoDup hrow → length row = length hrow →
  firstViolation checks (mkHeader hrow) row
    = firstViolation (byteRules hrow n) (mkHeader hrow) row.
Proof.
  intros Hnd Hlen. unfold byteRules. cbn [firstViolation checks rulesOf].
  unfold checkMapSize, ruleFieldCount.
  rewrite mkHeader_size_NoDup by done.
  by rewrite !bool_decide_false by (by intros ?).
Qed.

(** C1 (amended).  Under a header line without a repeated name, every
    well-formed line after it goes through the fifteen rules of section 4.2
    in their order, lengths being counted in bytes: a wrong field count is
    reported by the error of the csv reader, and the other rules are the
    checks of [processFile].  The error of the first rule the line violates
    becomes the one row added to the error list, and no Record is added; a
    line that violates no rule adds one Record made of the strings of the
    row as they stand, the id being the integer its column denotes, and no
    error row. *)
Theorem C1_rules_in_order_amended (pre : list RawRecord) (st : LoopState)
    (hrow : list string) (n : Z) (f : string) (fs : list string) :
  readLoop 0 initState pre = Some st →
  headerRow (readAll 0 pre) = Some hrow →
  NoDup hrow →
  readLoop 0 initState (pre ++ [Parsed n f fs]) =
    Some (nextLine
      match firstViolation (byteRules hrow n) (mkHeader hrow) (f :: fs) with
      | Some e =>
          mkLoopState (records st) (errs st ++ [errRow (line st) e]) (header st) (line st)
      | None =>
          mkLoopState (records st ++ [recordOf (mkHeader hrow) (f :: fs)]) (errs st)
                      (header st) (line st)
      end).
Proof.
  intros Hloop Hrow Hnd.
  destruct (readLoop_spec pre) as (st' & Hloop' & _ & Hhdr & _).
  rewrite Hloop in Hloop'. injection Hloop' as <-.
  rewrite Hrow in Hhdr. simpl in Hhdr.
  destruct (decide (length (f :: fs) = length hrow)) as [Heq|Hne].
  - rewrite (data_row_checks pre (Parsed n f fs) st (mkHeader hrow) (f :: fs) (length hrow)
               Hloop Hhdr (match_is_delivered pre hrow n f fs Hrow Heq)).
    by rewrite (checks_byteRules hrow (f :: fs) n Hnd Heq), Hhdr.
  - rewrite readLoop_snoc, Hloop, (mismatch_is_reader_error pre hrow n f fs Hrow Hne).
    unfold byteRules. cbn [firstViolation rulesOf fst snd]. unfold ruleFieldCount.
    by rewrite bool_decide_true by done.
Qed.

(** ** Line numbers of the report and lines of the file *)

(** When the records of the file stand on consecutive lines from line 1,
    without an empty line and without a quoted field that runs over
    several lines, the number in a row of the report is the line of the file
    on which the record starts. *)
Lemma report_number_without_gaps (input : list RawRecord) (row : list string) :
  (∀ k raw, input !! k = Some raw → rawLine raw = (Z.of_nat k + 1)%Z) →
  row ∈ reportRows (readAll 0 input) →
  ∃ raw e, raw ∈ input ∧ row = [pretty (rawLine raw); Error e].
Proof.
  intros Hlines (k & rd & e & Hk & _ & ->)%reportRows_elem.
  destruct (lookup_lt_is_Some_2 input k) as [raw Hraw].
  { apply lookup_lt_Some in Hk. by rewrite readAll_length in Hk. }
  exists raw, e. split; [by eapply list_elem_of_lookup_2|].
  by rewrite (Hlines k raw Hraw).
Qed.

End Converter.

(** * Examples on concrete files

    The converter with the stand-ins for the four library functions and
    the directories [output] and [errors]. *)

Abbreviation convert :=
  (processFile quotePlain quotePlain basePlain joinPlain "output" "errors").

(** C7, on the second line of a file with the five required columns. *)
Lemma C7_indices_in_range_witness :
  readLoop quotePlain 0 initState [exHeader] = Some exState
  ∧ header exState = Some stdHeader
  ∧ readRecord (fprAfter 0 [exHeader]) exValid = (exValidRow, None, 5)
  ∧ length exValidRow = size stdHeader
  ∧ (∀ name id, stdHeader !! name = Some id → id < length exValidRow)
  ∧ validateRow stdHeader exValidRow ≠ Panic.
Proof.
  assert (length exValidRow = size stdHeader) as Hsize by (by vm_compute).
  split; [reflexivity|]. split; [reflexivity|]. split; [reflexivity|].
  split; [exact Hsize|].
  exact (C7_indices_in_range quotePlain [exHeader] exValid exState stdHeader exValidRow 5
           eq_refl eq_refl eq_refl Hsize).
Defined.

(** C8, on a text file. *)
Lemma C8_other_extension_ignored_witness :
  ToLower (Ext "input/notes.txt") ≠ ".csv"
  ∧ convert (okOS [exHeader; exValid]) "input/notes.txt" = ([], Return None).
Proof.
  assert (ToLower (Ext "input/notes.txt") ≠ ".csv") as Hext by (by vm_compute).
  split; [exact Hext|].
  exact (C8_other_extension_ignored quotePlain quotePlain basePlain joinPlain
           "output" "errors" (okOS [exHeader; exValid]) "input/notes.txt" Hext).
Defined.

(** C9, on the same content under two names, the second on a system that
    refuses the write. *)
Lemma C9_json_depends_on_content_only_witness :
  ToLower (Ext "input/a.csv") = ".csv" ∧ ToLower (Ext "input/b.CSV") = ".csv"
  ∧ os_Open (okOS [exHeader; exValid]) "input/a.csv" = inl [exHeader; exValid]
  ∧ os_Open (noOutputDirOS [exHeader; exValid]) "input/b.CSV" = inl [exHeader; exValid]
  ∧ ∃ data,
      jsonWritten (convert (okOS [exHeader; exValid]) "input/a.csv").1 = [data]
      ∧ jsonWritten (convert (noOutputDirOS [exHeader; exValid]) "input/b.CSV").1 = [data].
Proof.
  split; [reflexivity|]. split; [reflexivity|]. split; [reflexivity|]. split; [reflexivity|].
  exact (C9_json_depends_on_content_only quotePlain quotePlain basePlain joinPlain
           "output" "errors" (okOS [exHeader; exValid]) (noOutputDirOS [exHeader; exValid])
           "input/a.csv" "input/b.CSV" [exHeader; exValid] eq_refl eq_refl eq_refl eq_refl).
Defined.

(** C10 as stated fails on a file whose first line is malformed and whose
    second line is the header: one error row, no Record, and no line after
    the header line. *)
Lemma C10_counterexample :
  ∃ st, readLoop quotePlain 0 initState [exBareQuote; exHeader] = Some st
    ∧ length (records st) + (length (errs st) - 1)
        ≠ linesAfterHeader (readAll 0 [exBareQuote; exHeader]).
Proof. eexists. split; [reflexivity|]. by vm_compute. Qed.

(** C2 (the code departs from the claim).  For a file with only a header
    line, and for a file whose only data row fails validation, the data
    written to the JSON file is [null]: [records] is still the nil slice,
    which [json.MarshalIndent] does not encode as an empty array. *)
Theorem C2_no_record_writes_null :
  convert (okOS [exHeader]) "input/people.csv"
    = ([WriteFile "output/people.json" "null"; Remove "input/people.csv"], Return None)
  ∧ jsonWritten (convert (okOS [exHeader; exShortID]) "input/people.csv").1 = ["null"].
Proof. by vm_compute. Qed.

(** C4 (the code departs from the claim).  The count check compares the
    row with the number of entries of the Header Map, which is the number of
    distinct names of the header line.  With the name [NOTE] twice in the
    header line, a valid row that has as many fields as the header line is
    rejected with the count error. *)
Theorem C4_duplicate_names_reject_matching_row :
  length exDupRow = length exDupHeaderRow
  ∧ size (mkHeader exDupHeaderRow) = 6
  ∧ validateRow (mkHeader exDupHeaderRow) exDupRow = Fail (ErrNumFields 7 6)
  ∧ convert (okOS [exDupHeader; exDupValid]) "input/people.csv"
      = ([WriteFile "output/people.json" "null";
          OpenFile "errors/people.csv";
          WriteAll "errors/people.csv"
            [["LINE_NUM"; "ERROR_MSG"];
             ["2"; "err: number of fields: 7 does not match header: 6"]];
          Remove "input/people.csv"], Return None).
Proof. by vm_compute. Qed.

(** C5 (the code departs from the claim).  When the error file cannot be
    opened, [processFile] does not return an error: it ends the process
    through [logrus.Fatal], the input file is not removed and the files
    that follow are not processed. *)
Theorem C5_error_report_failure_exits :
  convert (noErrorDirOS [exHeader; exShortID]) "input/people.csv"
    = ([WriteFile "output/people.json" "null"; OpenFile "errors/people.csv"], Exit)
  ∧ processFiles quotePlain quotePlain basePlain joinPlain "output" "errors"
      (noErrorDirOS [exHeader; exShortID]) ["input/people.csv"; "input/more.csv"]
    = ([WriteFile "output/people.json" "null"; OpenFile "errors/people.csv"], Terminated).
Proof. by vm_compute. Qed.

(** * The further properties on concrete files *)

(** X3, on a file whose header line has no [PHONE_NUM] column. *)
Lemma X3_missing_column_rejects_all_witness :
  headerRow (readAll 0 [Parsed 1 ID [FName; MName; LName];
                        Parsed 2 "12345678" ["Jane"; "Q"; "Doe"]])
    = Some [ID; FName; MName; LName]
  ∧ (Phone ∈ required)
  ∧ (Phone ∉ [ID; FName; MName; LName])
  ∧ ∃ st, readLoop quotePlain 0 initState
            [Parsed 1 ID [FName; MName; LName]; Parsed 2 "12345678" ["Jane"; "Q"; "Doe"]]
          = Some st
      ∧ records st = [] ∧ length (errs st) = 2.
Proof.
  assert (Phone ∈ required) as Hreq by compute_done.
  assert (Phone ∉ [ID; FName; MName; LName]) as Hmiss by compute_done.
  split; [reflexivity|]. split; [exact Hreq|]. split; [exact Hmiss|].
  exact (X3_missing_column_rejects_all quotePlain
           [Parsed 1 ID [FName; MName; LName]; Parsed 2 "12345678" ["Jane"; "Q"; "Doe"]]
           [ID; FName; MName; LName] Phone eq_refl Hreq Hmiss).
Defined.

(** X4, on the header line with [NOTE] twice. *)
Lemma X4_count_error_iff_duplicate_names_witness :
  headerRow (readAll 0 [exDupHeader]) = Some exDupHeaderRow
  ∧ readRecord (fprAfter 0 [exDupHeader]) exDupValid = (exDupRow, None, 7)
  ∧ ((∃ a b, validateRow (mkHeader exDupHeaderRow) exDupRow = Fail (ErrNumFields a b))
     ↔ ¬ NoDup exDupHeaderRow).
Proof.
  split; [reflexivity|]. split; [reflexivity|].
  exact (X4_count_error_iff_duplicate_names [exDupHeader] exDupValid exDupHeaderRow
           exDupRow 7 eq_refl eq_refl).
Defined.

(** X5, on a file in which the first two columns are exchanged. *)
Lemma X5_column_order_irrelevant_witness :
  NoDup exHeaderRow
  ∧ length exValidRow = length exHeaderRow
  ∧ length ["Jane"; "12345678"; "Q"; "Doe"; "555-123-4567"]
      = length [FName; ID; MName; LName; Phone]
  ∧ (zip exHeaderRow exValidRow
      ≡ₚ zip [FName; ID; MName; LName; Phone]
             ["Jane"; "12345678"; "Q"; "Doe"; "555-123-4567"])
  ∧ validateRow (mkHeader exHeaderRow) exValidRow
      = validateRow (mkHeader [FName; ID; MName; LName; Phone])
          ["Jane"; "12345678"; "Q"; "Doe"; "555-123-4567"].
Proof.
  assert (NoDup exHeaderRow) as Hnd by compute_done.
  assert (zip exHeaderRow exValidRow
            ≡ₚ zip [FName; ID; MName; LName; Phone]
                   ["Jane"; "12345678"; "Q"; "Doe"; "555-123-4567"]) as Hperm
    by apply perm_swap.
  split; [exact Hnd|]. split; [reflexivity|]. split; [reflexivity|].
  split; [exact Hperm|].
  exact (X5_column_order_irrelevant exHeaderRow exValidRow
           [FName; ID; MName; LName; Phone]
           ["Jane"; "12345678"; "Q"; "Doe"; "555-123-4567"] Hnd eq_refl eq_refl Hperm).
Defined.

(** X6, on a file with one more column called [NOTE]. *)
Lemma X6_extra_columns_ignored_witness :
  NoDup (exHeaderRow ++ ["NOTE"])
  ∧ length exValidRow = length exHeaderRow
  ∧ length ["x"] = length ["NOTE"]
  ∧ Forall (λ name, name ∉ ["NOTE"]) required
  ∧ validateRow (mkHeader (exHeaderRow ++ ["NOTE"])) (exValidRow ++ ["x"])
      = validateRow (mkHeader exHeaderRow) exValidRow.
Proof.
  assert (NoDup (exHeaderRow ++ ["NOTE"])) as Hnd by compute_done.
  assert (Forall (λ name, name ∉ ["NOTE"]) required) as Hfresh by compute_done.
  split; [exact Hnd|]. split; [reflexivity|]. split; [reflexivity|].
  split; [exact Hfresh|].
  exact (X6_extra_columns_ignored exHeaderRow exValidRow ["NOTE"] ["x"]
           Hnd eq_refl eq_refl Hfresh).
Defined.

(** X8, on a file whose extension is in upper case. *)
Lemma X8_json_name_witness :
  ToLower (Ext "input/people.CSV") = ".csv"
  ∧ os_Open (okOS [exHeader; exValid]) "input/people.CSV" = inl [exHeader; exValid]
  ∧ basePlain "input/people.CSV" = "people" +:+ Ext "input/people.CSV"
  ∧ ∃ data, head (convert (okOS [exHeader; exValid]) "input/people.CSV").1
            = Some (WriteFile (joinPlain "output" ("people" +:+ ".json")) data).
Proof.
  split; [reflexivity|]. split; [reflexivity|]. split; [reflexivity|].
  exact (X8_json_name quotePlain quotePlain basePlain joinPlain "output" "errors"
           (okOS [exHeader; exValid]) "input/people.CSV" "people" [exHeader; exValid]
           eq_refl eq_refl eq_refl).
Defined.

(** X9, on a file with one valid and one invalid row. *)
Lemma X9_removed_only_after_outputs_witness :
  Remove "input/people.csv"
    ∈ (convert (okOS [exHeader; exValid; exShortID]) "input/people.csv").1
  ∧ ∃ input st,
      os_Open (okOS [exHeader; exValid; exShortID]) "input/people.csv" = inl input
      ∧ readLoop quotePlain 0 initState input = Some st
      ∧ ioutil_WriteFile (okOS [exHeader; exValid; exShortID])
          (joinPlain "output"
             (TrimSuffix (basePlain "input/people.csv") (Ext "input/people.csv")
                +:+ "." +:+ "json"))
          (MarshalIndent quotePlain (records st)) = None
      ∧ (1 < length (errs st) →
         os_OpenFile (okOS [exHeader; exValid; exShortID])
           (joinPlain "errors" (basePlain "input/people.csv")) = None
         ∧ csv_WriteAll (okOS [exHeader; exValid; exShortID])
             (joinPlain "errors" (basePlain "input/people.csv")) (errs st) = None).
Proof.
  assert (Remove "input/people.csv"
            ∈ (convert (okOS [exHeader; exValid; exShortID]) "input/people.csv").1) as Hin.
  { vm_compute. do 3 apply list_elem_of_further. apply list_elem_of_here. }
  split; [exact Hin|].
  exact (proj2 (X9_removed_only_after_outputs quotePlain quotePlain basePlain joinPlain
                  "output" "errors" (okOS [exHeader; exValid; exShortID])
                  "input/people.csv" "input/people.csv" Hin)).
Defined.

(** X10, on the same file. *)
Lemma X10_calls_on_success_witness :
  ToLower (Ext "input/people.csv") = ".csv"
  ∧ (convert (okOS [exHeader; exValid; exShortID]) "input/people.csv").2 = Return None
  ∧ ∃ input st,
      os_Open (okOS [exHeader; exValid; exShortID]) "input/people.csv" = inl input
      ∧ readLoop quotePlain 0 initState input = Some st
      ∧ (convert (okOS [exHeader; exValid; exShortID]) "input/people.csv").1 =
          [WriteFile
             (joinPlain "output"
                (TrimSuffix (basePlain "input/people.csv") (Ext "input/people.csv")
                   +:+ "." +:+ "json"))
             (MarshalIndent quotePlain (records st))]
          ++ (if bool_decide (reportRows quotePlain (readAll 0 input) ≠ [])
              then [OpenFile (joinPlain "errors" (basePlain "input/people.csv"));
                    WriteAll (joinPlain "errors" (basePlain "input/people.csv"))
                      (["LINE_NUM"; "ERROR_MSG"] :: reportRows quotePlain (readAll 0 input))]
              else [])
          ++ [Remove "input/people.csv"].
Proof.
  split; [reflexivity|]. split; [reflexivity|].
  exact (X10_calls_on_success quotePlain quotePlain basePlain joinPlain "output" "errors"
           (okOS [exHeader; exValid; exShortID]) "input/people.csv" eq_refl eq_refl).
Defined.

(** X11, on two files whose JSON cannot be written. *)
Lemma X11_returned_errors_do_not_stop_witness :
  Forall (λ f, ∃ err, (convert (noOutputDirOS [exHeader; exValid]) f).2 = Return err)
    ["input/a.csv"; "input/b.csv"]
  ∧ processFiles quotePlain quotePlain basePlain joinPlain "output" "errors"
      (noOutputDirOS [exHeader; exValid]) ["input/a.csv"; "input/b.csv"]
    = (concat ((λ f, (convert (noOutputDirOS [exHeader; exValid]) f).1)
                 <$> ["input/a.csv"; "input/b.csv"]), Running).
Proof.
  assert (Forall (λ f, ∃ err, (convert (noOutputDirOS [exHeader; exValid]) f).2 = Return err)
            ["input/a.csv"; "input/b.csv"]) as Hall.
  { repeat constructor; by eexists. }
  split; [exact Hall|].
  exact (X11_returned_errors_do_not_stop quotePlain quotePlain basePlain joinPlain
           "output" "errors" (noOutputDirOS [exHeader; exValid])
           ["input/a.csv"; "input/b.csv"] Hall).
Defined.

(** X12, on a text file followed by a csv file whose error report cannot be
    opened and by one more csv file. *)
Lemma X12_exit_stops_everything_witness :
  Forall (λ f, ∃ err, (convert (noErrorDirOS [exHeader; exShortID]) f).2 = Return err)
    ["input/notes.txt"]
  ∧ (convert (noErrorDirOS [exHeader; exShortID]) "input/a.csv").2 = Exit
  ∧ processFiles quotePlain quotePlain basePlain joinPlain "output" "errors"
      (noErrorDirOS [exHeader; exShortID]) (["input/notes.txt"] ++ "input/a.csv" :: ["input/b.csv"])
    = (concat ((λ f, (convert (noErrorDirOS [exHeader; exShortID]) f).1)
                 <$> ["input/notes.txt"])
       ++ (convert (noErrorDirOS [exHeader; exShortID]) "input/a.csv").1, Terminated).
Proof.
  assert (Forall (λ f, ∃ err, (convert (noErrorDirOS [exHeader; exShortID]) f).2 = Return err)
            ["input/notes.txt"]) as Hall.
  { repeat constructor; by eexists. }
  split; [exact Hall|]. split; [reflexivity|].
  exact (X12_exit_stops_everything quotePlain quotePlain basePlain joinPlain
           "output" "errors" (noErrorDirOS [exHeader; exShortID])
           ["input/notes.txt"] ["input/b.csv"] "input/a.csv" Hall eq_refl).
Defined.

(** X15, on a second line with two fields under a header line with five. *)
Lemma X15_wrong_field_count_is_reported_witness :
  readLoop quotePlain 0 initState [exHeader] = Some exState
  ∧ headerRow (readAll 0 [exHeader]) = Some exHeaderRow
  ∧ length ("12345678" :: ["Jane"]) ≠ length exHeaderRow
  ∧ readLoop quotePlain 0 initState ([exHeader] ++ [Parsed 2 "12345678" ["Jane"]]) =
      Some (mkLoopState []
              [["LINE_NUM"; "ERROR_MSG"]; ["2"; "record on line 2: wrong number of fields"]]
              (Some (mkHeader exHeaderRow)) 3).
Proof.
  assert (length ("12345678" :: ["Jane"]) ≠ length exHeaderRow) as Hne by (by vm_compute).
  split; [reflexivity|]. split; [reflexivity|]. split; [exact Hne|].
  exact (X15_wrong_field_count_is_reported quotePlain [exHeader] exState exHeaderRow
           2 "12345678" ["Jane"] eq_refl eq_refl Hne).
Defined.

(** * The revised claims on concrete files *)

(** C1 (amended), on the third line of a file: a row whose id is too short
    and whose phone number is malformed.  The id rule comes first. *)
Lemma C1_rules_in_order_amended_witness :
  readLoop quotePlain 0 initState [exHeader; exValid] = Some exState3
  ∧ headerRow (readAll 0 [exHeader; exValid]) = Some exHeaderRow
  ∧ NoDup exHeaderRow
  ∧ readLoop quotePlain 0 initState
      ([exHeader; exValid] ++ [Parsed 3 "1234567" ["Jane"; "Q"; "Doe"; "5551234567"]]) =
      Some (mkLoopState
              [mkRec 12345678 (mkName "Jane" "Q" "Doe") "555-123-4567"]
              [["LINE_NUM"; "ERROR_MSG"];
               ["3"; "err: id field: " +:+ dq +:+ "1234567" +:+ dq
                       +:+ " is not an 8 digit integer"]]
              (Some stdHeader) 4).
Proof.
  assert (NoDup exHeaderRow) as Hnd by compute_done.
  split; [reflexivity|]. split; [reflexivity|]. split; [exact Hnd|].
  rewrite (C1_rules_in_order_amended quotePlain [exHeader; exValid] exState3 exHeaderRow
             3 "1234567" ["Jane"; "Q"; "Doe"; "5551234567"] eq_refl eq_refl Hnd).
  vm_compute. reflexivity.
Defined.

(** C1 as stated fails on two files.  In the first, the first name has
    eight characters and sixteen bytes: the row violates none of the rules
    of section 4.2, which count characters, yet [processFile] reports it and
    adds no Record.  In the second, the header line carries the name [NOTE]
    twice: the row has the field count of the header line and violates no
    rule, yet it is reported and adds no Record. *)
Lemma C1_counterexample :
  (charCount exAccentName = 8 ∧ String.length exAccentName = 16
   ∧ firstViolation (specRules exHeaderRow) (mkHeader exHeaderRow) exAccentRow = None
   ∧ ∃ st, readLoop quotePlain 0 initState [exHeader; exAccentLine] = Some st
       ∧ records st = [] ∧ length (errs st) = 2)
  ∧ (firstViolation (specRules exDupHeaderRow) (mkHeader exDupHeaderRow) exDupRow = None
     ∧ ∃ st, readLoop quotePlain 0 initState [exDupHeader; exDupValid] = Some st
         ∧ records st = [] ∧ length (errs st) = 2).
Proof.
  split.
  - split; [by vm_compute|]. split; [by vm_compute|]. split; [by vm_compute|].
    eexists. split; [reflexivity|]. by vm_compute.
  - split; [by vm_compute|]. eexists. split; [reflexivity|]. by vm_compute.
Qed.

(** C6 (the code departs from the claim).  The number written under
    [LINE_NUM] is the position of the record among the records read, not the
    line of the file.  After a header line and two empty lines, a row that
    stands on line 4 is reported under the number 2, whether it fails a check
    of [processFile] or is refused by the reader, whose own message names
    line 4. *)
Theorem C6_line_number_is_position_of_read :
  rawLine exLateShortID = 4%Z
  ∧ WriteAll "errors/people.csv"
      [["LINE_NUM"; "ERROR_MSG"];
       ["2"; "err: id field: " +:+ dq +:+ "1234567" +:+ dq +:+ " is not an 8 digit integer"]]
      ∈ (convert (okOS [exHeader; exLateShortID]) "input/people.csv").1
  ∧ rawLine exLateTwoFields = 4%Z
  ∧ WriteAll "errors/people.csv"
      [["LINE_NUM"; "ERROR_MSG"]; ["2"; "record on line 4: wrong number of fields"]]
      ∈ (convert (okOS [exHeader; exLateTwoFields]) "input/people.csv").1.
Proof.
  split; [reflexivity|]. split.
  { vm_compute. do 2 apply list_elem_of_further. apply list_elem_of_here. }
  split; [reflexivity|].
  vm_compute. do 2 apply list_elem_of_further. apply list_elem_of_here.
Qed.
